(** * FileIndex: a verified model of [fileindex.py]

    The development embeds the functions of [fileindex.py], [load_config],
    [index_files], [find_files] and the command line, together with the
    pieces of the Python standard library and of SQLite they rely on, and
    settles the properties the specification states about them.

    Conventions of the embedding:
    - a Python [str] is a [string]. The ASCII characters stand for
      themselves; what the other characters are is left to the platform,
      which says how [str.lower] treats them and which strings cannot be
      encoded as UTF-8 (the lone surrogates Python makes of the bytes of a
      file name or of an argument that are no UTF-8);
    - a modification timestamp is used by the program only through equality
      ([existing[path] != mtime]); it is modelled as an integer [Z];
    - the [files] table ([path TEXT PRIMARY KEY, mtime REAL]) is a finite map
      from paths to timestamps, the Python [dict] [existing] is the same kind
      of map, the Python [set] [scanned] is a finite set of paths; the order
      in which SQLite yields the rows of a table is left to the platform;
    - exceptions are explicit: an operation that may raise returns an
      [option], and the handlers of the source are the branches that consume
      the failure;
    - [db_name] names a file: what it designates is one of the four states
      of [database], and it changes only through the statements of the
      program;
    - the elapsed time is left out of what the program prints. *)

From Stdlib Require Import ZArith Ascii String List.
From stdpp Require Import base option list gmap strings fin_maps fin_sets sets.

Set Warnings "-clear-no-such-hyp".

(** ** Strings *)

Module Str.
Local Open Scope Z_scope.

(** The lowering of one character that SQLite applies when it compares
    characters for [LIKE]: only [A]-[Z] are mapped. *)
Definition lower_ascii (c : ascii) : ascii :=
  let n := N_of_ascii c in
  if ((65 <=? n) && (n <=? 90))%N then ascii_of_N (n + 32) else c.

(** The lowering of the ASCII letters of a string. *)
Fixpoint ascii_lower (s : string) : string :=
  match s with
  | EmptyString => EmptyString
  | String c s' => String (lower_ascii c) (ascii_lower s')
  end.

(** Whether every character of the string is an ASCII character. *)
Fixpoint is_ascii (s : string) : bool :=
  match s with
  | EmptyString => true
  | String c s' => (N_of_ascii c <? 128)%N && is_ascii s'
  end.

(** [s.startswith(p)] *)
Definition startswith (s p : string) : bool := String.prefix p s.

(** [s.endswith(c)] for a one-character suffix. *)
Fixpoint endswith_char (s : string) (c : ascii) : bool :=
  match s with
  | EmptyString => false
  | String a EmptyString => Ascii.eqb a c
  | String _ s' => endswith_char s' c
  end.

(** [s.rfind(c)] for a one-character needle: the highest index of [c] in
    [s], or [-1]. [i] is the index of the first character of [s]. *)
Fixpoint rfind_from (c : ascii) (s : string) (i : Z) : Z :=
  match s with
  | EmptyString => -1
  | String a s' =>
      let r := rfind_from c s' (i + 1) in
      if 0 <=? r then r else if Ascii.eqb a c then i else -1
  end.

Definition rfind (s : string) (c : ascii) : Z := rfind_from c s 0.

(** The slice [s[i:j]] for [0 <= i <= j]. *)
Definition slice (s : string) (i j : Z) : string :=
  String.substring (Z.to_nat i) (Z.to_nat (j - i)) s.

Definition len (s : string) : Z := Z.of_nat (String.length s).

(** [sep.join(l)] *)
Definition join (sep : string) (l : list string) : string := String.concat sep l.

(** Removes the prefix [p] from [s], if [s] starts with it. *)
Fixpoint strip_prefix (p s : string) : option string :=
  match p with
  | EmptyString => Some s
  | String a p' =>
      match s with
      | EmptyString => None
      | String b s' => if Ascii.eqb a b then strip_prefix p' s' else None
      end
  end.

(** The NUL character, and a string as a C function reads it: up to its
    first NUL. *)
Definition nul : ascii := Ascii.zero.

Fixpoint c_string (s : string) : string :=
  match s with
  | EmptyString => EmptyString
  | String c s' => if Ascii.eqb c nul then EmptyString else String c (c_string s')
  end.

Fixpoint nul_free (s : string) : bool :=
  match s with
  | EmptyString => true
  | String c s' => negb (Ascii.eqb c nul) && nul_free s'
  end.

(** The characters of a string, each as a string: what a loop over a [str]
    yields. *)
Fixpoint characters (s : string) : list string :=
  match s with
  | EmptyString => []
  | String c s' => String c EmptyString :: characters s'
  end.

End Str.

(** ** Wildcard matching

    SQLite's [LIKE] and the shell patterns of [fnmatch] are both matched by
    backtracking over a pattern with one "any sequence" character and one
    "any single character" character; they differ in the two characters and
    in how ordinary characters are compared. *)

Module Wildcard.

Section Matcher.
Variables (many one : ascii) (same : ascii -> ascii -> bool).

Fixpoint matches (pat : string) : string -> bool :=
  match pat with
  | EmptyString =>
      fun s => match s with EmptyString => true | _ => false end
  | String c pat' =>
      if Ascii.eqb c many then
        fix skip (s : string) : bool :=
          matches pat' s ||
          match s with
          | EmptyString => false
          | String _ s' => skip s'
          end
      else
        fun s =>
          match s with
          | EmptyString => false
          | String d s' => (Ascii.eqb c one || same c d) && matches pat' s'
          end
  end.
End Matcher.

(** Equality of characters up to the case of ASCII letters. *)
Definition same_nocase (c d : ascii) : bool :=
  Ascii.eqb (Str.lower_ascii c) (Str.lower_ascii d).

(** SQLite's comparison of a pattern with a text, both complete: [%]
    matches any sequence of characters, [_] any single character, ASCII
    letters match in either case, and there is no escape character. *)
Definition pattern_compare (pat s : string) : bool :=
  matches "%" "_" same_nocase pat s.

(** [s LIKE pat] under SQLite's defaults. The comparison reads the pattern
    and the text as C strings: each ends at its first NUL. *)
Definition like (pat s : string) : bool :=
  pattern_compare (Str.c_string pat) (Str.c_string s).

(** Shell-style matching for patterns built from [*], [?] and ordinary
    characters, compared exactly (POSIX [normcase] is the identity). *)
Definition glob (name pat : string) : bool := matches "*" "?" Ascii.eqb pat name.

End Wildcard.

(** ** Paths: [os.path] on POSIX *)

Module Path.
Local Open Scope Z_scope.

Definition sep : ascii := "/".
Definition extsep : ascii := ".".

(** [os.path.join(a, b)] *)
Definition join (a b : string) : string :=
  if Str.startswith b "/" then b
  else if String.eqb a "" || Str.endswith_char a sep then a +:+ b
  else a +:+ "/" +:+ b.

(** The [while] loop of [genericpath._splitext]: skip the leading dots of
    the file name; the first other character before [dotIndex] makes the
    split at [dotIndex]. *)
Fixpoint splitext_loop (fuel : nat) (p : string) (dotIndex filenameIndex : Z)
  : string * string :=
  match fuel with
  | O => (p, "")
  | S fuel' =>
      if filenameIndex <? dotIndex then
        if negb (String.eqb (Str.slice p filenameIndex (filenameIndex + 1)) ".")
        then (Str.slice p 0 dotIndex, Str.slice p dotIndex (Str.len p))
        else splitext_loop fuel' p dotIndex (filenameIndex + 1)
      else (p, "")
  end.

(** [os.path.splitext(p)] *)
Definition splitext (p : string) : string * string :=
  let sepIndex := Str.rfind p sep in
  let dotIndex := Str.rfind p extsep in
  if sepIndex <? dotIndex
  then splitext_loop (S (String.length p)) p dotIndex (sepIndex + 1)
  else (p, "").

End Path.

(** ** The file system

    A directory holds named entries; an entry is a directory or anything else
    ([os.walk] reports every entry that is not a directory in [files]).
    [lookup_path] tells what a path names, if anything; [getmtime] is
    [os.path.getmtime], [None] standing for a raised [OSError] (permission
    denied, dangling link, file removed since the directory was listed). *)

#[warnings="-register-all"]
Inductive node :=
| File
| Dir (entries : list (string * node)).

Record filesystem := {
  lookup_path : string -> option node;
  getmtime : string -> option Z
}.

Definition is_dir (n : node) : bool :=
  match n with Dir _ => true | File => false end.

(** The names [os.walk] sorts into [dirs] and into [files]. *)
Definition dir_names (entries : list (string * node)) : list string :=
  map fst (filter (fun e => is_dir (snd e)) entries).

Definition file_names (entries : list (string * node)) : list string :=
  map fst (filter (fun e => negb (is_dir (snd e))) entries).

(** [os.walk(top)], top-down. The consumer edits the yielded [dirs] in place
    before the generator resumes; the edit of [index_files] keeps the names
    that satisfy a predicate, which is the parameter [keep]. The generator
    yields [(top, dirs, files)] and then descends, in order, into the
    directories that were kept. *)
Fixpoint os_walk (keep : string -> bool) (top : string) (n : node)
  : list (string * list string * list string) :=
  match n with
  | File => []
  | Dir entries =>
      (top, dir_names entries, file_names entries) ::
      (fix descend (l : list (string * node)) :=
         match l with
         | [] => []
         | (name, child) :: l' =>
             if is_dir child && keep name
             then os_walk keep (Path.join top name) child ++ descend l'
             else descend l'
         end) entries
  end.

(** ** The database

    What [db_name] designates: a location where no database can be opened
    ([sqlite3.connect] raises), a file that is not an SQLite database (the
    connection opens, every statement raises), a database without the
    [files] table, or a database with it. *)

Inductive database :=
| Unopenable
| NotADatabase
| NoTable
| Table (rows : gmap string Z).

(** The state the operations act on: the database, and the number of
    connections that were opened and not closed. *)
Record world := {
  store : database;
  connections : nat
}.

(** [sqlite3.connect(db_name)] *)
Definition connect (w : world) : option world :=
  match store w with
  | Unopenable => None
  | _ => Some {| store := store w; connections := S (connections w) |}
  end.

(** [db.close()] *)
Definition close (w : world) : world :=
  {| store := store w; connections := pred (connections w) |}.

(** [db.commit()] of a transaction that left the table as [rows]. *)
Definition commit (rows : gmap string Z) (w : world) : world :=
  {| store := Table rows; connections := connections w |}.

(** The statements of [index_files] that change the table, with their
    parameters in the order of the source. *)
Inductive statement :=
| Update (mtime : Z) (path : string)
| Insert (path : string) (mtime : Z)
| Delete (path : string).

(** The [str] among the parameters of a statement. *)
Definition parameter (s : statement) : string :=
  match s with Update _ path | Insert path _ | Delete path => path end.

(** The two handlers inside the loop of [index_files]: [except OSError] and
    [except Exception]. *)
Inductive scan_error :=
| CannotAccess (path : string)
| ErrorWith (path : string).

(** What a run of [index_files] reports when it has committed: the set
    [scanned] (its size is printed), [deleted], [excluded] and [errors], and
    the statements that went through. *)
Record summary := {
  scanned_paths : gset string;
  deleted_count : nat;
  excluded_count : nat;
  error_list : list scan_error;
  statements : list statement
}.

(** The result of [index_files]: [True], with the summary it printed, or
    [False]. *)
Inductive outcome :=
| Indexed (s : summary)
| Failed.

Definition succeeded (o : outcome) : bool :=
  match o with Indexed _ => true | Failed => false end.

(** A value as [json.load] returns it. A number is written as an integer:
    the program tells numbers apart only by whether they are zero. *)
#[warnings="-register-all"]
Inductive json :=
| JNull
| JBool (b : bool)
| JNumber (n : Z)
| JString (s : string)
| JArray (items : list json)
| JObject (fields : gmap string json).

(** What [os.path.exists] and [os.path.isdir] make of a root: an exception,
    no such file, a file that is not a directory, a directory. *)
Inductive root_status :=
| RootRaises
| RootMissing
| RootNotDirectory
| RootDirectory.

(** ** The platform

    What the program takes from its surroundings and the model leaves open:
    - [fnmatch.fnmatch(name, pattern)], which [index_files] uses only as a
      predicate on a name and a pattern;
    - [str.lower()], with three facts about it: lowering twice is lowering
      once, a leading dot is left where it is, and lowering puts no dot in
      front;
    - which strings can be encoded as UTF-8: those without a lone
      surrogate, so that ASCII strings can, and a concatenation can when
      its parts can. [sqlite3] encodes a [str] parameter when it binds it,
      and raises [UnicodeEncodeError] when it cannot; in the other
      direction a row whose text is no UTF-8 cannot be fetched as a [str]
      ([sqlite3.OperationalError]): such a row is written with a path that
      is not [encodable];
    - the order in which SQLite yields the rows of the table for a query;
    - whether the prints of the report of [index_files], which sit inside
      its [try], go through;
    - what [os.path.exists] and [os.path.isdir] make of a root that is not a
      [str] (an integer is taken for a file descriptor). *)
Class Platform := {
  fnmatch : string -> string -> bool;
  lower : string -> string;
  encodable : string -> bool;
  row_order : string -> gmap string Z -> list string;
  prints_report : summary -> bool;
  examine : json -> root_status;
  lower_lower : forall s, lower (lower s) = lower s;
  lower_dot : forall s, lower (String "." s) = String "." (lower s);
  lower_dotted : forall s,
    Str.startswith (lower s) "." = true -> Str.startswith s "." = true;
  encodable_ascii : forall s, Str.is_ascii s = true -> encodable s = true;
  encodable_app : forall s t, encodable (s +:+ t) = encodable s && encodable t;
  row_order_keys : forall query rows,
    row_order query rows ≡ₚ map fst (map_to_list rows)
}.

(** ** Statements and cursors *)

Section Statements.
Context `{Platform}.

(** The effect of a statement on the table. [None] is an exception: the
    [UnicodeEncodeError] of a path that cannot be encoded, or the
    [sqlite3.IntegrityError] of an [INSERT] whose key is present already. *)
Definition apply_statement (s : statement) (rows : gmap string Z)
  : option (gmap string Z) :=
  if encodable (parameter s) then
    match s with
    | Update mtime path =>
        Some (match rows !! path with
              | Some _ => <[path := mtime]> rows
              | None => rows
              end)
    | Insert path mtime =>
        match rows !! path with
        | Some _ => None
        | None => Some (<[path := mtime]> rows)
        end
    | Delete path => Some (delete path rows)
    end
  else None.

(** A cursor inside the open transaction: the table as the transaction sees
    it and the statements that went through. *)
Record cursor := {
  rows_of : gmap string Z;
  executed : list statement
}.

(** [c.execute(s)]: the new cursor, or [None] when the statement raises. *)
Definition execute (s : statement) (c : cursor) : option cursor :=
  rows ← apply_statement s (rows_of c);
  Some {| rows_of := rows; executed := executed c ++ [s] |}.

(** Whether every path of the table can be fetched as a [str]. *)
Definition decodable (rows : gmap string Z) : bool :=
  forallb encodable (map fst (map_to_list rows)).

(** The query of line 118. *)
Definition select_all : string := "SELECT path, mtime FROM files".

(** [CREATE TABLE IF NOT EXISTS files ...] followed by [select_all] and
    [fetchall]: the rows, or [None] when a statement or the fetch raises.
    The table is created at once: no transaction is open when the
    [CREATE TABLE] runs. *)
Definition create_and_select (d : database) : option (gmap string Z) :=
  match d with
  | Unopenable | NotADatabase => None
  | NoTable => Some ∅
  | Table rows => if decodable rows then Some rows else None
  end.

End Statements.

(** ** [index_files] *)

(** The local variables of the scan: [scanned], [errors], [excluded] and the
    cursor [c]. *)
Record scan_state := {
  scanned : gset string;
  errors : list scan_error;
  excluded : nat;
  cur : cursor
}.

Section Indexing.
Context `{Platform}.

(** [ext.lower() if ext.startswith('.') else f'.{ext.lower()}'] *)
Definition normalize_extension (ext : string) : string :=
  if Str.startswith ext "." then lower ext else "." +:+ lower ext.

(** [any(fnmatch.fnmatch(name, pattern) for pattern in patterns)] *)
Definition matches_any (name : string) (patterns : list string) : bool :=
  existsb (fun pattern => fnmatch name pattern) patterns.

(** [excluded += 1; continue] *)
Definition count_excluded (st : scan_state) : scan_state :=
  {| scanned := scanned st; errors := errors st;
     excluded := S (excluded st); cur := cur st |}.

(** [c.execute(s)] inside the [try] of the loop: a statement that raises is
    caught by [except Exception], which records the path. *)
Definition attempt (s : statement) (path : string) (scanned' : gset string)
    (st : scan_state) : scan_state :=
  match execute s (cur st) with
  | Some c =>
      {| scanned := scanned'; errors := errors st;
         excluded := excluded st; cur := c |}
  | None =>
      {| scanned := scanned'; errors := errors st ++ [ErrorWith path];
         excluded := excluded st; cur := cur st |}
  end.

(** The [try] of lines 148 to 166, for a file that no rule excludes. The
    path is added to [scanned] before any statement is sent. *)
Definition record_file (fs : filesystem) (existing : gmap string Z)
    (path : string) (st : scan_state) : scan_state :=
  match getmtime fs path with
  | None =>
      {| scanned := scanned st;
         errors := errors st ++ [CannotAccess path];
         excluded := excluded st; cur := cur st |}
  | Some mtime =>
      let scanned' := scanned st ∪ {[path]} in
      match existing !! path with
      | Some old =>
          if bool_decide (old ≠ mtime) then
            attempt (Update mtime path) path scanned' st
          else
            {| scanned := scanned'; errors := errors st;
               excluded := excluded st; cur := cur st |}
      | None => attempt (Insert path mtime) path scanned' st
      end
  end.

(** The body of [for f in files]. *)
Definition index_file (fs : filesystem)
    (exclude_extensions exclude_patterns : list string)
    (existing : gmap string Z) (root f : string) (st : scan_state)
  : scan_state :=
  let path := Path.join root f in
  let ext := snd (Path.splitext path) in
  if bool_decide (lower ext ∈ exclude_extensions) then count_excluded st
  else if matches_any f exclude_patterns then count_excluded st
  else record_file fs existing path st.

(** The body of [for root, dirs, files in os.walk(dataset_path)], the edit
    of [dirs] apart (it is the [keep] of [os_walk]). *)
Definition index_directory (fs : filesystem)
    (exclude_extensions exclude_patterns : list string)
    (existing : gmap string Z) (st : scan_state)
    (yielded : string * list string * list string) : scan_state :=
  let '(root, _, files) := yielded in
  foldl (fun st f =>
           index_file fs exclude_extensions exclude_patterns existing root f st)
        st files.

(** [for path in existing: if path not in scanned: DELETE ...; deleted += 1].
    The dict [existing] is walked in the order the rows were fetched. A
    [DELETE] that raises ends the loop: [None]. *)
Definition remove_unscanned (scanned : gset string) (existing : gmap string Z)
    (c : cursor) : option (cursor * nat) :=
  foldl (fun state path =>
           '(c, deleted) ← state;
           if bool_decide (path ∈ scanned) then Some (c, deleted)
           else c' ← execute (Delete path) c; Some (c', S deleted))
        (Some (c, O)) (row_order select_all existing).

(** The scan state before the first file. *)
Definition start (existing : gmap string Z) : scan_state :=
  {| scanned := ∅; errors := []; excluded := O;
     cur := {| rows_of := existing; executed := [] |} |}.

(** Lines 168 to 196, after the scan: the rows that were not scanned are
    removed, the transaction is committed, the connection is closed and the
    report is printed. An exception before the commit leaves the table as
    it was fetched, and the connection open; a print that raises makes the
    function return [False] after the commit. *)
Definition finish (existing : gmap string Z) (st : scan_state) (w : world)
  : outcome * world :=
  match remove_unscanned (scanned st) existing (cur st) with
  | None => (Failed, {| store := Table existing; connections := connections w |})
  | Some (c, deleted) =>
      let s := {| scanned_paths := scanned st;
                  deleted_count := deleted;
                  excluded_count := excluded st;
                  error_list := errors st;
                  statements := executed c |} in
      (if prints_report s then Indexed s else Failed,
       close (commit (rows_of c) w))
  end.

(** [index_files(dataset_path, db_name, ...)] on the file system [fs] and
    the state [w] of [db_name], for arguments of the documented types. A
    rule list left to its default [None] is the empty list. *)
Definition index_files (fs : filesystem) (dataset_path : string)
    (exclude_extensions exclude_patterns exclude_directories : list string)
    (enable_exclusions : bool) (w : world) : outcome * world :=
  let exclude_extensions := if enable_exclusions then exclude_extensions else [] in
  let exclude_patterns := if enable_exclusions then exclude_patterns else [] in
  let exclude_directories := if enable_exclusions then exclude_directories else [] in
  let exclude_extensions := map normalize_extension exclude_extensions in
  match lookup_path fs dataset_path with
  | None => (Failed, w)
  | Some File => (Failed, w)
  | Some (Dir entries) =>
      match connect w with
      | None => (Failed, w)
      | Some w =>
          match create_and_select (store w) with
          | None => (Failed, w)
          | Some existing =>
              let keep d := negb (matches_any d exclude_directories) in
              let st :=
                foldl (index_directory fs exclude_extensions exclude_patterns existing)
                      (start existing)
                      (os_walk keep dataset_path (Dir entries)) in
              finish existing st w
          end
      end
  end.

End Indexing.

(** ** [find_files] *)

Module Sql.

(** The queries [find_files] can send have the shape
    [SELECT path FROM files WHERE path LIKE ? AND ... AND path LIKE ?].
    [placeholders] reads such a query and counts its parameters; [None] is
    a syntax error. The clause after [WHERE] must hold one condition at
    least. *)
Fixpoint more_conditions (fuel : nat) (s : string) : option nat :=
  match fuel with
  | O => None
  | S fuel' =>
      match s with
      | EmptyString => Some O
      | _ =>
          match Str.strip_prefix " AND path LIKE ?" s with
          | Some rest => S <$> more_conditions fuel' rest
          | None => None
          end
      end
  end.

Definition placeholders (query : string) : option nat :=
  match Str.strip_prefix "SELECT path FROM files WHERE path LIKE ?" query with
  | Some rest => S <$> more_conditions (S (String.length rest)) rest
  | None => None
  end.

(** SQLite refuses an expression whose tree is deeper than 1000. The
    conditions of the query, each a [LIKE] over a column and a parameter,
    are joined by [AND] to the left: [n] of them make a tree of depth
    [n + 1]. *)
Definition max_depth : nat := 1000.

Definition depth (conditions : nat) : nat := S conditions.

Section Select.
Context `{Platform}.

(** [c.execute(query, params)] and [c.fetchall()] for such a query: the
    selected paths in the order SQLite yields them, or [None] when the
    statement or the fetch raises (no database, syntax error, no table,
    wrong number of parameters, expression too deep, a parameter that
    cannot be encoded, a selected row that cannot be decoded). *)
Definition select_paths (d : database) (query : string) (params : list string)
  : option (list string) :=
  match d with
  | Unopenable | NotADatabase => None
  | NoTable => None
  | Table rows =>
      match placeholders query with
      | None => None
      | Some n =>
          if bool_decide (n = length params)
             && (depth n <=? max_depth)%nat
             && forallb encodable params
          then
            let selected :=
              filter (fun path => forallb (fun pat => Wildcard.like pat path) params)
                     (row_order query rows) in
            if forallb encodable selected then Some selected else None
          else None
      end
  end.

End Select.

End Sql.

Section Searching.
Context `{Platform}.

(** The query [find_files] builds for its keywords. *)
Definition query_of (keywords : list string) : string :=
  "SELECT path FROM files WHERE " +:+
  Str.join " AND " (map (fun _ => "path LIKE ?") keywords).

(** [find_files(keywords, db_name)] on the state [w] of [db_name]: the rows
    fetched, each a path, or [None]. *)
Definition find_files (keywords : list string) (w : world)
  : option (list string) * world :=
  match connect w with
  | None => (None, w)
  | Some w =>
      let where_clause := Str.join " AND " (map (fun _ => "path LIKE ?") keywords) in
      let params := map (fun kw => "%" +:+ kw +:+ "%") keywords in
      let query := "SELECT path FROM files WHERE " +:+ where_clause in
      match Sql.select_paths (store w) query params with
      | None => (None, w)
      | Some results => (Some results, close w)
      end
  end.

End Searching.

(** ** Vocabulary of the statements: searching *)


(** [b] is the lowercase letter of the uppercase ASCII letter [a]. *)
Definition lowercase_of (a b : ascii) : Prop :=
  (65 <= N_of_ascii a <= 90)%N /\ N_of_ascii b = (N_of_ascii a + 32)%N.

(** The same character, up to the case of an ASCII letter. *)
Definition same_letter (a b : ascii) : Prop :=
  a = b \/ lowercase_of a b \/ lowercase_of b a.


(** What a [LIKE] pattern denotes, one rule per kind of pattern character:
    [%] stands for any sequence of characters, [_] for any single character,
    every other character for itself in either case of an ASCII letter. *)
Inductive denotes : string -> string -> Prop :=
| denotes_end :
    denotes "" ""
| denotes_percent pat skipped rest :
    denotes pat rest ->
    denotes (String "%" pat) (skipped +:+ rest)
| denotes_underscore pat c rest :
    denotes pat rest ->
    denotes (String "_" pat) (String c rest)
| denotes_char a b pat rest :
    a <> "%"%char -> a <> "_"%char ->
    same_letter a b ->
    denotes pat rest ->
    denotes (String a pat) (String b rest).

(** [keyword], read as a [LIKE] pattern, denotes some contiguous part of
    [path]. *)
Definition occurs_as_pattern (keyword path : string) : Prop :=
  exists before part after,
    path = before +:+ part +:+ after /\ denotes keyword part.

(** [keyword], read as a [LIKE] pattern, denotes the end of [path]. *)
Definition ends_as_pattern (keyword path : string) : Prop :=
  exists before part, path = before +:+ part /\ denotes keyword part.

(** What the parameter [%keyword%] selects. [LIKE] reads the path up to its
    first NUL. A keyword without NUL must occur in it as a pattern; a
    keyword with a NUL is cut there, with the [%] that followed it, so that
    what is left of it must match the end of the path. *)
Definition keyword_selects (keyword path : string) : Prop :=
  if Str.nul_free keyword
  then occurs_as_pattern keyword (Str.c_string path)
  else ends_as_pattern (Str.c_string keyword) (Str.c_string path).




(** Every path of the table can be fetched. *)
Definition fetchable `{Platform} (rows : gmap string Z) : Prop :=
  forall path, is_Some (rows !! path) -> encodable path = true.


(** The empty search as the specification describes the source: every
    indexed path is returned. *)
Definition empty_search_matches_all `{Platform} (w : world) : Prop :=
  exists rows results,
    store w = Table rows /\
    fst (find_files [] w) = Some results /\
    forall path, path ∈ results <-> is_Some (rows !! path).

(** Every connection the operation opened was closed when it returns. *)
Definition releases_connection {A : Type} (run : world -> A * world) : Prop :=
  forall w, connections (snd (run w)) = connections w.

(** ** Vocabulary of the statements: indexing *)

(** The path an error message names. *)
Definition error_path (e : scan_error) : string :=
  match e with CannotAccess path | ErrorWith path => path end.

(** A file the traversal comes across is a pair [(root, f)] of the two
    loops; [path_of] is the path [index_files] builds for it. *)
Definition path_of (visit : string * string) : string :=
  Path.join (fst visit) (snd visit).

(** The files of the directories a traversal yields, in the order of the
    loops. *)
Definition files_of (yields : list (string * list string * list string))
  : list (string * string) :=
  flat_map (fun '(root, _, files) => map (pair root) files) yields.

Definition visits (keep : string -> bool) (top : string) (n : node)
  : list (string * string) :=
  files_of (os_walk keep top n).

(** The paths of all the files below a directory. *)
Definition all_paths (top : string) (n : node) : list string :=
  map path_of (visits (fun _ => true) top n).

(** The paths of the files that sit, at any depth, inside a directory the
    traversal reaches and [keep] rejects. *)
Fixpoint pruned_paths (keep : string -> bool) (top : string) (n : node)
  : list string :=
  match n with
  | File => []
  | Dir entries =>
      (fix below (l : list (string * node)) :=
         match l with
         | [] => []
         | (name, child) :: l' =>
             (if is_dir child then
                if keep name then pruned_paths keep (Path.join top name) child
                else all_paths (Path.join top name) child
              else []) ++ below l'
         end) entries
  end.

(** The names a POSIX directory can hold: not empty, without [/]. *)
Fixpoint slash_free (s : string) : bool :=
  match s with
  | EmptyString => true
  | String c s' => negb (Ascii.eqb c "/") && slash_free s'
  end.

Definition valid_name (s : string) : bool :=
  negb (String.eqb s "") && slash_free s.

(** A tree as a POSIX file system holds it: in every directory the names
    are valid and no name occurs twice. *)
#[warnings="-register-all"]
Inductive well_formed : node -> Prop :=
| well_formed_file :
    well_formed File
| well_formed_dir entries :
    NoDup (map fst entries) ->
    Forall (fun e => valid_name (fst e) = true /\ well_formed (snd e)) entries ->
    well_formed (Dir entries).

(** What [os.path.join] puts in front of a valid name. *)
Definition directory_prefix (top : string) : string :=
  if String.eqb top "" || Str.endswith_char top "/" then top else top +:+ "/".

(** The paths an entry of the directory [top] contributes. *)
Definition entry_paths (top : string) (e : string * node) : list string :=
  if is_dir (snd e) then all_paths (Path.join top (fst e)) (snd e)
  else [Path.join top (fst e)].

(** The rules [index_files] applies: none when exclusions are disabled. *)
Definition in_effect (enable_exclusions : bool) (rules : list string) : list string :=
  if enable_exclusions then rules else [].

(** The table a run starts from: empty when [CREATE TABLE] made it. *)
Definition baseline (d : database) : gmap string Z :=
  match d with Table rows => rows | _ => ∅ end.

Section IndexingVocabulary.
Context `{Platform}.

(** The directories [index_files] keeps in [dirs]. *)
Definition keeps (exclude_directories : list string) (d : string) : bool :=
  negb (matches_any d exclude_directories).

(** The two exclusion tests of [index_files], on the normalized
    extensions. *)
Definition excluded_by (extensions patterns : list string)
    (visit : string * string) : bool :=
  bool_decide (lower (snd (Path.splitext (path_of visit))) ∈ extensions)
  || matches_any (snd visit) patterns.

(** The paths of the files among [seen] that pass both tests. *)
Definition accepted (extensions patterns : list string)
    (seen : list (string * string)) : list string :=
  map path_of (filter (fun v => negb (excluded_by extensions patterns v)) seen).

(** The statement the scan sends for an accepted file, from the table
    [existing] the run started with: an [INSERT] when the path has no row,
    an [UPDATE] when its row holds another timestamp, nothing when the
    timestamp cannot be read or is the one of the row. *)
Definition statement_for (fs : filesystem) (existing : gmap string Z)
    (path : string) : list statement :=
  match getmtime fs path with
  | None => []
  | Some mtime =>
      match existing !! path with
      | Some old => if bool_decide (old ≠ mtime) then [Update mtime path] else []
      | None => [Insert path mtime]
      end
  end.

(** The error the scan records for an accepted file whose path is met
    once: its timestamp cannot be read, or its [INSERT] raises because the
    path cannot be encoded. *)
Definition error_for (fs : filesystem) (path : string) : list scan_error :=
  match getmtime fs path with
  | None => [CannotAccess path]
  | Some _ => if encodable path then [] else [ErrorWith path]
  end.

Variables (fs : filesystem) (dataset_path : string).
Variables (exclude_extensions exclude_patterns exclude_directories : list string).

(** The files a run of [index_files] comes across. *)
Definition scan_visits (enable_exclusions : bool) : list (string * string) :=
  match lookup_path fs dataset_path with
  | Some n =>
      visits (keeps (in_effect enable_exclusions exclude_directories)) dataset_path n
  | None => []
  end.

(** The test a run applies to the files it comes across. *)
Definition excluded_in_run (enable_exclusions : bool) : string * string -> bool :=
  excluded_by (map normalize_extension (in_effect enable_exclusions exclude_extensions))
              (in_effect enable_exclusions exclude_patterns).

(** The paths of the files a run comes across and does not exclude. *)
Definition encountered (enable_exclusions : bool) : list string :=
  accepted (map normalize_extension (in_effect enable_exclusions exclude_extensions))
           (in_effect enable_exclusions exclude_patterns)
           (scan_visits enable_exclusions).

(** The paths of the files inside a directory whose name matches one of
    the configured directory patterns. *)
Definition inside_excluded_directory : list string :=
  match lookup_path fs dataset_path with
  | Some n => pruned_paths (keeps exclude_directories) dataset_path n
  | None => []
  end.

(** Distinct files have distinct paths. *)
Definition distinct_paths : Prop :=
  match lookup_path fs dataset_path with
  | Some n => NoDup (all_paths dataset_path n)
  | None => True
  end.

Definition sync (enable_exclusions : bool) (w : world) : outcome * world :=
  index_files fs dataset_path exclude_extensions exclude_patterns
              exclude_directories enable_exclusions w.

(** What a run that committed has done, given the table [existing] it
    started from: [s] is its summary and [rows] the table it leaves. *)
Record established (enable_exclusions : bool) (existing : gmap string Z)
    (s : summary) (rows : gmap string Z) : Prop := {
  est_existing :
    fetchable existing;
  est_scanned : forall path,
    path ∈ scanned_paths s <->
    path ∈ encountered enable_exclusions /\ is_Some (getmtime fs path);
  est_excluded :
    excluded_count s =
    length (filter (fun v => excluded_in_run enable_exclusions v)
                   (scan_visits enable_exclusions));
  est_access : forall path,
    CannotAccess path ∈ error_list s <->
    path ∈ encountered enable_exclusions /\ getmtime fs path = None;
  est_errors : forall e,
    e ∈ error_list s -> error_path e ∈ encountered enable_exclusions;
  est_refused : forall path,
    path ∈ scanned_paths s -> encodable path = false ->
    ErrorWith path ∈ error_list s;
  est_refusals : forall path,
    ErrorWith path ∈ error_list s ->
    path ∈ scanned_paths s /\ existing !! path = None;
  est_rows : forall path,
    rows !! path =
    if decide (path ∈ scanned_paths s /\ encodable path = true)
    then getmtime fs path else None;
  est_statements : forall st,
    st ∈ statements s ->
    match st with
    | Update mtime path | Insert path mtime =>
        path ∈ scanned_paths s /\ getmtime fs path = Some mtime /\
        encodable path = true
    | Delete path =>
        is_Some (existing !! path) /\ path ∉ scanned_paths s
    end;
  est_deleted : forall path,
    is_Some (existing !! path) -> path ∉ scanned_paths s ->
    Delete path ∈ statements s;
  est_deleted_count :
    deleted_count s =
    length (filter (fun path => path ∉ scanned_paths s)
                   (map fst (map_to_list existing)))
}.


(** The handling of a failed timestamp read, as the specification words
    it: an error, no entry in [scanned], and the entry of the path in the
    index as it was. *)
Definition failed_read_keeps_entry (enable_exclusions : bool) (w : world) : Prop :=
  forall s w' path,
    sync enable_exclusions w = (Indexed s, w') ->
    path ∈ encountered enable_exclusions ->
    getmtime fs path = None ->
    CannotAccess path ∈ error_list s /\
    (path ∉ scanned_paths s) /\
    forall before,
      store w = Table before -> is_Some (before !! path) ->
      exists after, store w' = Table after /\ after !! path = before !! path.


(** Directory pruning, as the specification words it: no file inside a
    directory whose name matches a configured pattern is visited, named
    in an error, or in the index after the run. *)
Definition excluded_directories_skipped (enable_exclusions : bool) (w : world) : Prop :=
  forall s w' path,
    sync enable_exclusions w = (Indexed s, w') ->
    path ∈ inside_excluded_directory ->
    (path ∉ map path_of (scan_visits enable_exclusions)) /\
    (forall e, e ∈ error_list s -> error_path e <> path) /\
    exists rows, store w' = Table rows /\ rows !! path = None.

End IndexingVocabulary.



(** A test for [occurs_literally]. *)
Fixpoint infixb (keyword s : string) : bool :=
  String.prefix keyword s ||
  match s with
  | EmptyString => false
  | String _ s' => infixb keyword s'
  end.

(** ** Example inputs *)

(** The platform of the examples. Its patterns are the shell patterns with
    [*] and [?]. Its strings are made of the ASCII characters and, above
    127, of the lone surrogates Python makes of bytes that are no UTF-8:
    lowering is the lowering of the ASCII letters, and a string can be
    encoded when it is ASCII. SQLite yields the rows in the order of their
    paths, every print goes through, and no integer is an open file
    descriptor. *)
Definition example_platform : Platform.
Proof.
  refine {| fnmatch := Wildcard.glob;
            lower := Str.ascii_lower;
            encodable := Str.is_ascii;
            row_order := fun _ rows => map fst (map_to_list rows);
            prints_report := fun _ => true;
            examine := fun _ => RootMissing |}.
  - intros s. induction s as [|c s IH]; [reflexivity|].
    cbn [Str.ascii_lower]. rewrite IH. f_equal.
    by destruct c as [[] [] [] [] [] [] [] []].
  - reflexivity.
  - intros [|c s]; [done|]. unfold Str.startswith. cbn [Str.ascii_lower].
    destruct c as [[] [] [] [] [] [] [] []]; cbn; try done; by destruct s.
  - done.
  - intros s t. induction s as [|c s IH]; [reflexivity|].
    change (String c s +:+ t) with (String c (s +:+ t)).
    cbn [Str.is_ascii]. by rewrite IH, andb_assoc.
  - reflexivity.
Defined.

(** The same platform with a console that refuses the report. *)
Definition mute_platform : Platform :=
  {| fnmatch := @fnmatch example_platform;
     lower := @lower example_platform;
     encodable := @encodable example_platform;
     row_order := @row_order example_platform;
     prints_report := fun _ => false;
     examine := @examine example_platform;
     lower_lower := @lower_lower example_platform;
     lower_dot := @lower_dot example_platform;
     lower_dotted := @lower_dotted example_platform;
     encodable_ascii := @encodable_ascii example_platform;
     encodable_app := @encodable_app example_platform;
     row_order_keys := @row_order_keys example_platform |}.

(** The index of the example of the specification: [/data/report.txt] with
    its timestamp. *)
Definition example_index : gmap string Z := {[ "/data/report.txt" := 1700000000%Z ]}.

Definition example_world : world :=
  {| store := Table example_index; connections := 0 |}.

(** A database file on which no [index] command ran yet. *)
Definition fresh_world : world := {| store := NoTable; connections := 0 |}.

(** A database file that is not an SQLite database. *)
Definition foreign_world : world := {| store := NotADatabase; connections := 0 |}.

(** The tree of the example of the specification: [/data/report.txt] and
    [/data/tmp/cache.tmp]. *)
Definition example_tree : node :=
  Dir [("report.txt", File); ("tmp", Dir [("cache.tmp", File)])].

Definition example_fs : filesystem :=
  {| lookup_path p :=
       if String.eqb p "/data" then Some example_tree
       else if String.eqb p "/data/report.txt" then Some File
       else None;
     getmtime p :=
       if String.eqb p "/data/report.txt" then Some 1700000000%Z
       else if String.eqb p "/data/tmp/cache.tmp" then Some 1700000500%Z
       else None |}.

(** A directory with a file whose timestamp cannot be read, such as a
    dangling symbolic link. *)
Definition dangling_tree : node :=
  Dir [("report.txt", File); ("dangling", File)].

Definition dangling_fs : filesystem :=
  {| lookup_path p := if String.eqb p "/data" then Some dangling_tree else None;
     getmtime p :=
       if String.eqb p "/data/report.txt" then Some 1700000000%Z else None |}.

(** An index made when [/data/dangling] could still be read. *)
Definition stale_index : gmap string Z :=
  {[ "/data/report.txt" := 1700000000%Z; "/data/dangling" := 1600000000%Z ]}.

Definition stale_world : world :=
  {| store := Table stale_index; connections := 0 |}.

(** A file name with a byte that is no UTF-8, as Python holds it, and a
    directory with such a file, which can be read. *)
Definition raw_name : string := "notes" +:+ String "255" "".

Definition raw_path : string := "/data/" +:+ raw_name.

Definition raw_tree : node :=
  Dir [("report.txt", File); (raw_name, File)].

Definition raw_fs : filesystem :=
  {| lookup_path p := if String.eqb p "/data" then Some raw_tree else None;
     getmtime p :=
       if String.eqb p "/data/report.txt" then Some 1700000000%Z
       else if String.eqb p raw_path then Some 1700000300%Z
       else None |}.

(** A table with a row whose text is no UTF-8, written by another
    program. *)
Definition raw_index : gmap string Z :=
  {[ "/data/report.txt" := 1700000000%Z; raw_path := 1700000300%Z ]}.

Definition raw_world : world := {| store := Table raw_index; connections := 0 |}.



(** The summary of a run that returned [True]. *)
Definition summary_of (o : outcome) : summary :=
  match o with
  | Indexed s => s
  | Failed =>
      {| scanned_paths := ∅; deleted_count := O; excluded_count := O;
         error_list := []; statements := [] |}
  end.

(** Runs on the examples. *)
Definition example_sync :=
  sync (H := example_platform) example_fs "/data".

Definition dangling_sync :=
  sync (H := example_platform) dangling_fs "/data".

Definition raw_sync :=
  sync (H := example_platform) raw_fs "/data".

(** The example tree after [/data/report.txt] was touched. *)
Definition touched_fs : filesystem :=
  {| lookup_path := lookup_path example_fs;
     getmtime p :=
       if String.eqb p "/data/report.txt" then Some 1700000999%Z
       else getmtime example_fs p |}.

(** ** The configuration: [load_config] *)

(** What [open("config.json")] and [json.load(f)] come to: no file, another
    failure to open or read it, text that is not JSON, or the value read. *)
Inductive config_file :=
| Missing
| Unreadable
| Malformed
| Parsed (document : json).

(** The messages before [sys.exit(1)], one per exit of [load_config]. *)
Inductive config_error :=
| DatasetPathMissing
| DbPathMissing
| ConfigNotFound
| ConfigNotJson
| ConfigOther.

Definition is_string (s : string) (v : json) : bool :=
  match v with JString t => String.eqb s t | _ => false end.

(** [key in config]: a key of a dict, an element of a list, a part of a
    string; [None] is the [TypeError] of the other values. *)
Definition contains (config : json) (key : string) : option bool :=
  match config with
  | JObject fields => Some (bool_decide (is_Some (fields !! key)))
  | JArray items => Some (existsb (is_string key) items)
  | JString s => Some (infixb key s)
  | JNull | JBool _ | JNumber _ => None
  end.

(** [config[key] = value]: only a dict takes a string as a key. *)
Definition set_item (config : json) (key : string) (value : json) : option json :=
  match config with
  | JObject fields => Some (JObject (<[key := value]> fields))
  | _ => None
  end.

(** [config[key]] *)
Definition get_item (config : json) (key : string) : option json :=
  match config with
  | JObject fields => fields !! key
  | _ => None
  end.

(** [if key not in config: config[key] = value] *)
Definition set_default (key : string) (value : json) (config : json) : option json :=
  match contains config key with
  | None => None
  | Some true => Some config
  | Some false => set_item config key value
  end.

(** [load_config()]: the configuration, or the message of the exit. An
    exception other than the two named ones is caught by the last handler. *)
Definition load_config (file : config_file) : config_error + json :=
  match file with
  | Missing => inl ConfigNotFound
  | Unreadable => inl ConfigOther
  | Malformed => inl ConfigNotJson
  | Parsed config =>
      match contains config "dataset_path" with
      | None => inl ConfigOther
      | Some false => inl DatasetPathMissing
      | Some true =>
          match contains config "db_path" with
          | None => inl ConfigOther
          | Some false => inl DbPathMissing
          | Some true =>
              match
                (config ← set_default "exclude_extensions" (JArray []) config;
                 config ← set_default "exclude_patterns" (JArray []) config;
                 config ← set_default "exclude_directories" (JArray []) config;
                 set_default "enable_exclusions" (JBool false) config) : option json
              with
              | Some config => inr config
              | None => inl ConfigOther
              end
          end
      end
  end.

(** The values [load_config] supplies for the optional keys. *)
Definition config_defaults : gmap string json :=
  {[ "exclude_extensions" := JArray [];
     "exclude_patterns" := JArray [];
     "exclude_directories" := JArray [];
     "enable_exclusions" := JBool false ]}.

(** The six names the program reads from the configuration. *)
Definition config_keys : list string :=
  ["dataset_path"; "db_path"; "exclude_extensions"; "exclude_patterns";
   "exclude_directories"; "enable_exclusions"].

(** ** The command line *)

(** What the program hands to [print]: its own lines, the message of
    [load_config], what [index_files] and [find_files] print, and the
    traceback of an exception nobody catches. *)
Inductive printed :=
| Line (text : string)
| ConfigMessage (e : config_error)
| IndexReport (o : outcome)
| SearchError
| Traceback.

(** An execution of the program: its exit status, what it wrote, and the
    state it leaves. *)
Record execution := {
  exit_status : nat;
  output : list printed;
  final : world
}.

(** The truth value of a value, as [not] sees it. *)
Definition truthy (v : json) : bool :=
  match v with
  | JNull => false
  | JBool b => b
  | JNumber n => negb (Z.eqb n 0)
  | JString s => negb (String.eqb s "")
  | JArray items => match items with [] => false | _ => true end
  | JObject fields => negb (bool_decide (fields = ∅))
  end.

Definition as_string (v : json) : option string :=
  match v with JString s => Some s | _ => None end.

Definition usage : list printed :=
  [Line "Usage:";
   Line "  python3 fileindex.py index                              # Index files";
   Line "  python3 fileindex.py search [keyword1] [keyword2] ...   # Search files"].

Definition search_usage : list printed :=
  [Line "Usage: python3 fileindex.py search [keyword1] [keyword2] ..."].

(** A call of [index_files] returns, or an exception leaves it. *)
Inductive index_result :=
| Returned (o : outcome)
| Raised.

(** What a loop over a value yields: the elements of a list, the characters
    of a string, the keys of a dict (in an order that does not matter to
    the tests made on them); [None] is the [TypeError] of a value that
    cannot be iterated. *)
Definition elements (v : json) : option (list json) :=
  match v with
  | JArray items => Some items
  | JString s => Some (map JString (Str.characters s))
  | JObject fields => Some (map JString (map fst (map_to_list fields)))
  | JNull | JBool _ | JNumber _ => None
  end.

(** A rule list as lines 77 to 88 leave it: the empty list when the value
    is [None] or exclusions are disabled, the value otherwise. *)
Definition in_use (enable_exclusions : bool) (v : json) : option (list json) :=
  if enable_exclusions then
    match v with JNull => Some [] | _ => elements v end
  else Some [].

(** [sqlite3.connect(db_name)] takes a [str]; with another value it raises,
    as it does where no database can be opened, and the database of the
    configuration is out of reach. *)
Definition on_database {A : Type} (db_path : json) (w : world)
    (run : world -> A * world) : A * world :=
  match db_path with
  | JString _ => run w
  | _ => (fst (run {| store := Unopenable; connections := connections w |}), w)
  end.

Section CommandLine.
Context `{Platform}.

(** Line 91 on the elements of a value: an element without [startswith],
    that is any element that is not a [str], raises [AttributeError]. *)
Definition normalized (items : list json) : option (list string) :=
  mapM (fun item => normalize_extension <$> as_string item) items.

(** [any(fnmatch.fnmatch(name, pattern) for pattern in patterns)] on the
    elements of a value: the patterns are tried in order, and one that is
    not a [str] raises [TypeError] when it is reached. *)
Fixpoint any_fnmatch (name : string) (patterns : list json) : option bool :=
  match patterns with
  | [] => Some false
  | JString pattern :: rest =>
      if fnmatch name pattern then Some true else any_fnmatch name rest
  | _ :: _ => None
  end.

Definition matches_value (name : string) (rule : option (list json)) : option bool :=
  patterns ← rule; any_fnmatch name patterns.

(** [os.walk] under an edit of [dirs] that may raise. An exception, wherever
    it is raised in the loop of [index_files], ends the run in the same way:
    the traversal as a whole is [None]. *)
Fixpoint walk_any (keep : string -> option bool) (top : string) (n : node)
  : option (list (string * list string * list string)) :=
  match n with
  | File => Some []
  | Dir entries =>
      rest ← (fix descend (l : list (string * node)) :=
                match l with
                | [] => Some []
                | (name, child) :: l' =>
                    if is_dir child then
                      kept ← keep name;
                      if kept : bool then
                        below ← walk_any keep (Path.join top name) child;
                        after ← descend l';
                        Some (below ++ after)
                      else descend l'
                    else descend l'
                end) entries;
      Some ((top, dir_names entries, file_names entries) :: rest)
  end.

(** The body of [for f in files] for a pattern rule of any type. *)
Definition index_file_any (fs : filesystem) (exclude_extensions : list string)
    (exclude_patterns : option (list json)) (existing : gmap string Z)
    (root f : string) (st : scan_state) : option scan_state :=
  let path := Path.join root f in
  let ext := snd (Path.splitext path) in
  if bool_decide (lower ext ∈ exclude_extensions) then Some (count_excluded st)
  else
    matched ← matches_value f exclude_patterns;
    Some (if matched : bool then count_excluded st
          else record_file fs existing path st).

Definition index_directory_any (fs : filesystem) (exclude_extensions : list string)
    (exclude_patterns : option (list json)) (existing : gmap string Z)
    (state : option scan_state)
    (yielded : string * list string * list string) : option scan_state :=
  let '(root, _, files) := yielded in
  foldl (fun state f =>
           st ← state;
           index_file_any fs exclude_extensions exclude_patterns existing root f st)
        state files.

(** The loop of lines 127 to 166 for a root and rules of any type.
    [os.walk] raises [TypeError] on a root that is not a path. *)
Definition scan_any (fs : filesystem) (dataset_path : json)
    (exclude_extensions : list string)
    (exclude_patterns exclude_directories : option (list json))
    (existing : gmap string Z) : option scan_state :=
  match dataset_path with
  | JString path =>
      match lookup_path fs path with
      | Some n =>
          yields ← walk_any (fun d => negb <$> matches_value d exclude_directories)
                            path n;
          foldl (index_directory_any fs exclude_extensions exclude_patterns existing)
                (Some (start existing)) yields
      | None => Some (start existing)
      end
  | _ => None
  end.

(** [os.path.exists] and [os.path.isdir] on the root. *)
Definition root_of (fs : filesystem) (dataset_path : json) : root_status :=
  match dataset_path with
  | JString path =>
      match lookup_path fs path with
      | None => RootMissing
      | Some File => RootNotDirectory
      | Some (Dir _) => RootDirectory
      end
  | v => examine v
  end.

(** [index_files] on the values of a configuration, whatever their types.
    Line 91 runs before the root is looked at, outside the [try]; an
    exception inside the [try] makes the function return [False], with the
    table created, the statements sent so far not committed and the
    connection open. *)
Definition index_files_any (fs : filesystem)
    (dataset_path extensions patterns directories enable : json) (w : world)
  : index_result * world :=
  let enabled := truthy enable in
  match items ← in_use enabled extensions; normalized items with
  | None => (Raised, w)
  | Some exclude_extensions =>
      match root_of fs dataset_path with
      | RootRaises => (Raised, w)
      | RootMissing | RootNotDirectory => (Returned Failed, w)
      | RootDirectory =>
          match connect w with
          | None => (Returned Failed, w)
          | Some w =>
              match create_and_select (store w) with
              | None => (Returned Failed, w)
              | Some existing =>
                  match scan_any fs dataset_path exclude_extensions
                                 (in_use enabled patterns)
                                 (in_use enabled directories) existing
                  with
                  | None =>
                      (Returned Failed,
                       {| store := Table existing; connections := connections w |})
                  | Some st =>
                      let '(o, w') := finish existing st w in (Returned o, w')
                  end
              end
          end
      end
  end.

(** The three branches on the command, lines 268 to 301: [index], [search]
    and the rest, with the values read from the configuration. A search
    that finds nothing, and one that finds paths, reach the end of the
    program: exit status 0. *)
Definition dispatch (command : string) (keywords : list string) (fs : filesystem)
    (dataset_path db_path extensions patterns directories enable : json) (w : world)
  : execution :=
  if String.eqb command "index" then
    let '(r, w') :=
      on_database db_path w
        (index_files_any fs dataset_path extensions patterns directories enable) in
    match r with
    | Returned o =>
        {| exit_status := if succeeded o then 0 else 1;
           output := [IndexReport o]; final := w' |}
    | Raised => {| exit_status := 1; output := [Traceback]; final := w' |}
    end
  else if String.eqb command "search" then
    match keywords with
    | [] => {| exit_status := 1; output := search_usage; final := w |}
    | _ =>
        match on_database db_path w (find_files keywords) with
        | (None, w') => {| exit_status := 1; output := [SearchError]; final := w' |}
        | (Some [], w') =>
            {| exit_status := 0; output := [Line "No files found."]; final := w' |}
        | (Some matches, w') =>
            {| exit_status := 0; output := map Line matches; final := w' |}
        end
    end
  else
    {| exit_status := 1;
       output := [Line ("Unknown command: " +:+ command);
                  Line "Use 'index' or 'search'"];
       final := w |}.

(** The program, from [sys.argv], the configuration file, the file system
    and the state of the database the configuration names. The six values
    are read before the command is looked at; a configuration that is not
    an object has no items, and the exception is caught by nobody. *)
Definition main (argv : list string) (file : config_file) (fs : filesystem)
    (w : world) : execution :=
  match argv with
  | [] | [_] => {| exit_status := 1; output := usage; final := w |}
  | _ :: arg :: keywords =>
      let command := lower arg in
      match load_config file with
      | inl e => {| exit_status := 1; output := [ConfigMessage e]; final := w |}
      | inr config =>
          match
            get_item config "dataset_path", get_item config "db_path",
            get_item config "exclude_extensions", get_item config "exclude_patterns",
            get_item config "exclude_directories", get_item config "enable_exclusions"
          with
          | Some dataset_path, Some db_path, Some extensions, Some patterns,
            Some directories, Some enable =>
              dispatch command keywords fs dataset_path db_path extensions patterns
                       directories enable w
          | _, _, _, _, _, _ =>
              {| exit_status := 1; output := [Traceback]; final := w |}
          end
      end
  end.

End CommandLine.

(** A configuration that names the tree and the index of the examples and
    leaves the optional keys out, one that configures rules without
    enabling them, and one that enables a pattern that is not a string. *)
Definition example_config : gmap string json :=
  {[ "dataset_path" := JString "/data"; "db_path" := JString "index.db" ]}.

Definition example_config_rules : gmap string json :=
  {[ "dataset_path" := JString "/data"; "db_path" := JString "index.db";
     "exclude_extensions" := JArray [JString "tmp"];
     "exclude_directories" := JArray [JString "tmp"] ]}.

Definition example_config_untyped : gmap string json :=
  {[ "dataset_path" := JString "/data"; "db_path" := JString "index.db";
     "exclude_patterns" := JArray [JNumber 5];
     "enable_exclusions" := JBool true ]}.

(** ** Tests used in the proofs *)

(** Boolean versions of [lowercase_of] and [same_letter], and the list of
    all characters. *)
Definition lowercase_ofb (a b : ascii) : bool :=
  ((65 <=? N_of_ascii a) && (N_of_ascii a <=? 90) &&
   (N_of_ascii b =? N_of_ascii a + 32))%N.

Definition same_letterb (a b : ascii) : bool :=
  Ascii.eqb a b || lowercase_ofb a b || lowercase_ofb b a.

Definition all_characters : list ascii := map ascii_of_nat (seq 0 256).

(** The rows the query of [find_files] selects for its keywords, in the
    order SQLite yields them. *)
Definition selection `{Platform} (keywords : list string) (rows : gmap string Z)
  : list string :=
  filter (fun path =>
            forallb (fun pat => Wildcard.like pat path)
                    (map (fun kw => "%" +:+ kw +:+ "%") keywords))
         (row_order (query_of keywords) rows).

(** The statement that goes through for an accepted file that is met once:
    the one of [statement_for] when the path can be encoded, none when it
    cannot. *)
Definition sent_for `{Platform} (fs : filesystem) (existing : gmap string Z)
    (path : string) : list statement :=
  if encodable path then statement_for fs existing path else [].

(** The error of a statement that is refused for its path. *)
Definition refused_for `{Platform} (path : string) : list scan_error :=
  if encodable path then [] else [ErrorWith path].

(** Two results of [find_files] that differ at most in the order of the
    rows, with the same final state. *)
Definition same_rows (r1 r2 : option (list string) * world) : Prop :=
  snd r1 = snd r2 /\
  match fst r1, fst r2 with
  | Some l1, Some l2 => l1 ≡ₚ l2
  | None, None => True
  | _, _ => False
  end.


(** * Proofs *)

(** ** Strings *)

Lemma app_cons (a : ascii) (s t : string) : String a s +:+ t = String a (s +:+ t).
Proof. reflexivity. Qed.

Lemma app_empty_l (s : string) : "" +:+ s = s.
Proof. reflexivity. Qed.

Lemma app_empty_r (s : string) : s +:+ "" = s.
Proof. induction s as [|a s IH]; [reflexivity|]. by rewrite app_cons, IH. Qed.

Lemma app_assoc_str (s t u : string) : (s +:+ t) +:+ u = s +:+ t +:+ u.
Proof. induction s as [|a s IH]; [reflexivity|]. by rewrite !app_cons, IH. Qed.

Lemma length_app_str (s t : string) :
  String.length (s +:+ t) = (String.length s + String.length t)%nat.
Proof. induction s as [|a s IH]; [reflexivity|]. rewrite app_cons. simpl. by rewrite IH. Qed.

Lemma strip_prefix_app (p s : string) : Str.strip_prefix p (p +:+ s) = Some s.
Proof.
  induction p as [|a p IH]; [reflexivity|].
  rewrite app_cons. simpl. by rewrite Ascii.eqb_refl.
Qed.


Lemma c_string_app (s t : string) :
  Str.c_string (s +:+ t) =
  if Str.nul_free s then s +:+ Str.c_string t else Str.c_string s.
Proof.
  induction s as [|c s IH]; [done|]. rewrite app_cons. cbn.
  destruct (Ascii.eqb c Str.nul); [done|]. cbn. rewrite IH.
  by destruct (Str.nul_free s).
Qed.

(** ** The characters [LIKE] takes for the same *)

Lemma lowercase_ofb_spec (a b : ascii) : lowercase_ofb a b = true <-> lowercase_of a b.
Proof.
  unfold lowercase_ofb, lowercase_of.
  rewrite !andb_true_iff, !N.leb_le, N.eqb_eq. tauto.
Qed.

Lemma same_letterb_spec (a b : ascii) : same_letterb a b = true <-> same_letter a b.
Proof.
  unfold same_letterb, same_letter.
  rewrite !orb_true_iff, !lowercase_ofb_spec, Ascii.eqb_eq. tauto.
Qed.

Lemma all_characters_spec (c : ascii) : In c all_characters.
Proof.
  unfold all_characters. apply in_map_iff. exists (nat_of_ascii c).
  split; [apply ascii_nat_embedding|].
  apply in_seq. pose proof (nat_ascii_bounded c). lia.
Qed.

(** SQLite compares two characters the way [same_letter] says. *)
Lemma same_nocase_spec (a b : ascii) :
  Wildcard.same_nocase a b = true <-> same_letter a b.
Proof.
  rewrite <- same_letterb_spec.
  assert (forallb (fun a => forallb (fun b =>
            Bool.eqb (Wildcard.same_nocase a b) (same_letterb a b))
            all_characters) all_characters = true) as Hall by (by vm_compute).
  rewrite forallb_forall in Hall. specialize (Hall a (all_characters_spec a)).
  rewrite forallb_forall in Hall. specialize (Hall b (all_characters_spec b)).
  apply Bool.eqb_prop in Hall. by rewrite Hall.
Qed.

Lemma same_letter_refl (a : ascii) : same_letter a a.
Proof. by left. Qed.

(** ** [LIKE]: the matcher computes the denotation *)

Lemma compare_empty (s : string) : Wildcard.pattern_compare "" s = true <-> s = "".
Proof. destruct s; simpl; split; congruence. Qed.

Lemma compare_percent (pat s : string) :
  Wildcard.pattern_compare (String "%" pat) s =
  Wildcard.pattern_compare pat s ||
  match s with
  | EmptyString => false
  | String _ s' => Wildcard.pattern_compare (String "%" pat) s'
  end.
Proof. destruct s; reflexivity. Qed.

Lemma compare_other (c : ascii) (pat s : string) :
  c <> "%"%char ->
  Wildcard.pattern_compare (String c pat) s =
  match s with
  | EmptyString => false
  | String d s' =>
      (Ascii.eqb c "_" || Wildcard.same_nocase c d) && Wildcard.pattern_compare pat s'
  end.
Proof.
  intros Hc. unfold Wildcard.pattern_compare. simpl.
  destruct (Ascii.eqb_spec c "%"); [done|]. by destruct s.
Qed.

Lemma compare_sound (pat s : string) :
  Wildcard.pattern_compare pat s = true -> denotes pat s.
Proof.
  revert s. induction pat as [|c pat IH]; intros s.
  - intros ->%compare_empty. constructor.
  - destruct (decide (c = "%"%char)) as [->|Hc].
    + induction s as [|d s IHs]; rewrite compare_percent.
      * rewrite orb_false_r. intros Hm.
        apply (denotes_percent pat "" ""). by apply IH.
      * intros [Hm|Hm]%orb_true_iff.
        -- apply (denotes_percent pat "" (String d s)). by apply IH.
        -- specialize (IHs Hm). inversion IHs as [|? skipped rest Hrest Hp Hs| |]; subst.
           ++ apply (denotes_percent pat (String d skipped) rest Hrest).
           ++ done.
    + rewrite compare_other by done. destruct s as [|d s]; [done|].
      intros [Hd Hm]%andb_true_iff. apply IH in Hm.
      destruct (Ascii.eqb_spec c "_") as [->|Hu].
      * by constructor.
      * simpl in Hd. apply same_nocase_spec in Hd. by constructor.
Qed.

Lemma compare_skip (pat skipped rest : string) :
  Wildcard.pattern_compare pat rest = true ->
  Wildcard.pattern_compare (String "%" pat) (skipped +:+ rest) = true.
Proof.
  intros Hm. induction skipped as [|d skipped IH].
  - rewrite app_empty_l, compare_percent, Hm. done.
  - rewrite app_cons, compare_percent, IH. apply orb_true_r.
Qed.

Lemma compare_complete (pat s : string) :
  denotes pat s -> Wildcard.pattern_compare pat s = true.
Proof.
  induction 1 as [|pat skipped rest _ IH|pat c rest _ IH|a b pat rest Ha Hb Hab _ IH].
  - done.
  - by apply compare_skip.
  - rewrite compare_other by done. by rewrite IH.
  - rewrite compare_other by done. rewrite IH.
    apply same_nocase_spec in Hab. rewrite Hab. by rewrite orb_true_r.
Qed.

Lemma compare_denotes (pat s : string) :
  Wildcard.pattern_compare pat s = true <-> denotes pat s.
Proof. split; [apply compare_sound | apply compare_complete]. Qed.

(** Patterns compose: a concatenation of patterns denotes the
    concatenations of what the parts denote. *)
Lemma denotes_app (p1 p2 s : string) :
  denotes (p1 +:+ p2) s <->
  exists s1 s2, s = s1 +:+ s2 /\ denotes p1 s1 /\ denotes p2 s2.
Proof.
  split.
  - revert s. induction p1 as [|c p1 IH]; intros s Hd.
    + exists "", s. repeat split; [constructor | done].
    + rewrite app_cons in Hd.
      inversion Hd as [|? skipped rest Hrest|? d rest Hrest|? d ? rest Ha Hb Hab Hrest]; subst;
        destruct (IH _ Hrest) as (s1 & s2 & -> & H1 & H2).
      * exists (skipped +:+ s1), s2. rewrite app_assoc_str. by repeat split; [constructor|].
      * exists (String d s1), s2. by repeat split; [constructor|].
      * exists (String d s1), s2. by repeat split; [constructor|].
  - intros (s1 & s2 & -> & H1 & H2).
    induction H1 as [|pat skipped rest _ IH|pat c rest _ IH|a b pat rest Ha Hb Hab _ IH].
    + done.
    + rewrite app_cons, app_assoc_str. by constructor.
    + rewrite !app_cons. by constructor.
    + rewrite !app_cons. by constructor.
Qed.

Lemma denotes_any (s : string) : denotes "%" s.
Proof. rewrite <- (app_empty_r s). apply denotes_percent. constructor. Qed.

Lemma denotes_percent_inv (s : string) (t : string) : denotes "%" t -> True.
Proof. done. Qed.

(** The complete pattern [%kw%] selects the texts in which [kw] occurs as a
    pattern, and the pattern [%kw] those that end with it. *)
Lemma compare_keyword (kw text : string) :
  Wildcard.pattern_compare ("%" +:+ kw +:+ "%") text = true <->
  occurs_as_pattern kw text.
Proof.
  rewrite compare_denotes. unfold occurs_as_pattern.
  rewrite denotes_app. split.
  - intros (before & s2 & -> & _ & (part & after & -> & Hp & _)%denotes_app). eauto.
  - intros (before & part & after & -> & Hp).
    exists before, (part +:+ after). repeat split; [apply denotes_any|].
    apply denotes_app. exists part, after. eauto using denotes_any.
Qed.

Lemma compare_suffix (kw text : string) :
  Wildcard.pattern_compare ("%" +:+ kw) text = true <-> ends_as_pattern kw text.
Proof.
  rewrite compare_denotes. unfold ends_as_pattern.
  rewrite denotes_app. split.
  - intros (before & part & -> & _ & Hp). eauto.
  - intros (before & part & -> & Hp). eauto using denotes_any.
Qed.

(** The parameter [%kw%] as [LIKE] reads it. *)
Lemma like_keyword (kw path : string) :
  Wildcard.like ("%" +:+ kw +:+ "%") path = true <-> keyword_selects kw path.
Proof.
  unfold Wildcard.like, keyword_selects.
  rewrite (c_string_app "%"). cbn [Str.nul_free Ascii.eqb Str.nul negb andb].
  change (Str.nul_free "%") with true. cbv iota.
  rewrite c_string_app. destruct (Str.nul_free kw).
  - change (Str.c_string "%") with "%". apply compare_keyword.
  - apply compare_suffix.
Qed.




(** ** The query of [find_files] *)

Lemma elem_of_map {A B : Type} (f : A -> B) (l : list A) (y : B) :
  y ∈ map f l <-> exists x, y = f x /\ x ∈ l.
Proof.
  rewrite list_elem_of_In, in_map_iff.
  split; intros (x & Hx & Hin); exists x; split; try done;
    by apply list_elem_of_In.
Qed.

Lemma elem_of_keys (rows : gmap string Z) (path : string) :
  path ∈ map fst (map_to_list rows) <-> is_Some (rows !! path).
Proof.
  rewrite elem_of_map. split.
  - intros ([p m] & -> & Hin%elem_of_map_to_list). by exists m.
  - intros [m Hm]. exists (path, m). by rewrite elem_of_map_to_list.
Qed.

Lemma NoDup_keys (rows : gmap string Z) : NoDup (map fst (map_to_list rows)).
Proof. apply (NoDup_fst_map_to_list rows). Qed.

Lemma forallb_Forall {A : Type} (f : A -> bool) (l : list A) :
  forallb f l = true <-> Forall (fun x => f x = true) l.
Proof.
  rewrite forallb_forall, Forall_forall.
  by setoid_rewrite list_elem_of_In.
Qed.

(** The [WHERE] clause of one keyword or more: the first condition, then
    one [AND]-condition per further keyword, which [more_conditions]
    counts. *)
Lemma where_clause_conditions {A : Type} (kw : A) (kws : list A) :
  exists rest,
    Str.join " AND " (map (fun _ => "path LIKE ?") (kw :: kws)) = "path LIKE ?" +:+ rest /\
    (length kws <= String.length rest)%nat /\
    forall fuel, (length kws < fuel)%nat ->
      Sql.more_conditions fuel rest = Some (length kws).
Proof.
  revert kw. induction kws as [|kw' kws IH]; intros kw.
  - exists "". repeat split; [done|]. intros [|fuel] ?; [lia | reflexivity].
  - destruct (IH kw') as (rest & Hjoin & Hlen & Hcount).
    exists (" AND path LIKE ?" +:+ rest). repeat split.
    + unfold Str.join in *. change (map _ (kw :: kw' :: kws)) with
        ("path LIKE ?" :: map (fun _ : A => "path LIKE ?") (kw' :: kws)).
      cbn [String.concat]. cbn [map] in Hjoin |- *. rewrite Hjoin. reflexivity.
    + rewrite length_app_str. cbn [length String.length]. lia.
    + intros [|fuel] Hfuel; [simpl in Hfuel; lia|].
      cbn [Sql.more_conditions].
      change (" AND path LIKE ?" +:+ rest) with (String " " ("AND path LIKE ?" +:+ rest)).
      cbv iota.
      change (String " " ("AND path LIKE ?" +:+ rest)) with (" AND path LIKE ?" +:+ rest).
      rewrite strip_prefix_app.
      cbn [length] in Hfuel |- *. rewrite Hcount by lia. reflexivity.
Qed.

Lemma placeholders_query {A : Type} (kw : A) (kws : list A) :
  Sql.placeholders
    ("SELECT path FROM files WHERE " +:+
     Str.join " AND " (map (fun _ => "path LIKE ?") (kw :: kws)))
  = Some (S (length kws)).
Proof.
  destruct (where_clause_conditions kw kws) as (rest & -> & Hlen & Hcount).
  unfold Sql.placeholders.
  change ("SELECT path FROM files WHERE " +:+ "path LIKE ?" +:+ rest)
    with ("SELECT path FROM files WHERE path LIKE ?" +:+ rest).
  rewrite strip_prefix_app, Hcount by lia. reflexivity.
Qed.

Lemma placeholders_empty_query :
  Sql.placeholders
    ("SELECT path FROM files WHERE " +:+
     Str.join " AND " (map (fun _ : string => "path LIKE ?") []))
  = None.
Proof. reflexivity. Qed.


Section Search.
Context `{Platform}.

Lemma encodable_parameter (kw : string) :
  encodable ("%" +:+ kw +:+ "%") = encodable kw.
Proof.
  rewrite !encodable_app, (encodable_ascii "%") by done.
  by rewrite andb_true_r.
Qed.

Lemma encodable_parameters (kws : list string) :
  forallb encodable (map (fun kw => "%" +:+ kw +:+ "%") kws) = forallb encodable kws.
Proof.
  induction kws as [|kw kws IH]; [done|].
  cbn [map forallb]. by rewrite encodable_parameter, IH.
Qed.

(** What a search with one keyword or more returns on a table. *)
Lemma find_files_table (rows : gmap string Z) (n : nat) (kw : string) (kws : list string) :
  find_files (kw :: kws) {| store := Table rows; connections := n |} =
  if (length (kw :: kws) <? 1000)%nat
     && forallb encodable (kw :: kws)
     && forallb encodable (selection (kw :: kws) rows)
  then (Some (selection (kw :: kws) rows), {| store := Table rows; connections := n |})
  else (None, {| store := Table rows; connections := S n |}).
Proof.
  unfold find_files, connect, Sql.select_paths. cbn [store connections].
  rewrite placeholders_query.
  rewrite bool_decide_true by (simpl; by rewrite length_map).
  rewrite encodable_parameters.
  change (Sql.depth (S (length kws)) <=? Sql.max_depth)%nat
    with (length (kw :: kws) <? 1000)%nat.
  rewrite andb_true_l.
  fold (query_of (kw :: kws)). fold (selection (kw :: kws) rows).
  destruct (length (kw :: kws) <? 1000)%nat; [|done].
  destruct (forallb encodable (kw :: kws)); [|done].
  rewrite !andb_true_l.
  by destruct (forallb encodable (selection (kw :: kws) rows)).
Qed.

Lemma elem_of_row_order (query : string) (rows : gmap string Z) (path : string) :
  path ∈ row_order query rows <-> is_Some (rows !! path).
Proof. by rewrite (row_order_keys query rows), elem_of_keys. Qed.

Lemma NoDup_row_order (query : string) (rows : gmap string Z) :
  NoDup (row_order query rows).
Proof. rewrite (row_order_keys query rows). apply NoDup_keys. Qed.

Lemma elem_of_selection (kws : list string) (rows : gmap string Z) (path : string) :
  path ∈ selection kws rows <->
  is_Some (rows !! path) /\ Forall (fun kw => keyword_selects kw path) kws.
Proof.
  unfold selection. rewrite list_elem_of_filter, elem_of_row_order.
  rewrite Is_true_true, forallb_forall, Forall_forall.
  split.
  - intros [Hall Hrow]. split; [done|].
    intros k Hk. apply like_keyword, Hall, in_map_iff. exists k.
    by rewrite <- list_elem_of_In.
  - intros [Hrow Hall]. split; [|done].
    intros pat (k & <- & Hk)%in_map_iff. apply like_keyword, Hall.
    by rewrite list_elem_of_In.
Qed.

Lemma NoDup_selection (kws : list string) (rows : gmap string Z) :
  NoDup (selection kws rows).
Proof. apply NoDup_filter, NoDup_row_order. Qed.

Lemma decodable_fetchable (rows : gmap string Z) :
  decodable rows = true <-> fetchable rows.
Proof.
  unfold decodable, fetchable. rewrite forallb_Forall, Forall_forall.
  by setoid_rewrite elem_of_keys.
Qed.

Lemma selection_fetchable (kws : list string) (rows : gmap string Z) :
  fetchable rows -> forallb encodable (selection kws rows) = true.
Proof.
  intros Hrows. apply forallb_Forall, Forall_forall.
  intros path [Hrow _]%elem_of_selection. by apply Hrows.
Qed.

(** A search returns rows exactly when the table exists, there are between
    one and 999 keywords, and the keywords and the selected paths can be
    encoded; the connection is then closed, and left open otherwise. *)
Lemma find_files_some (rows : gmap string Z) (n : nat) (kws : list string) :
  kws <> [] -> (length kws < 1000)%nat ->
  forallb encodable kws = true ->
  forallb encodable (selection kws rows) = true ->
  find_files kws {| store := Table rows; connections := n |} =
    (Some (selection kws rows), {| store := Table rows; connections := n |}).
Proof.
  destruct kws as [|kw kws]; [done|]. intros _ Hlen Hkws Hsel.
  rewrite find_files_table, Hkws, Hsel.
  by rewrite (proj2 (Nat.ltb_lt _ _) Hlen).
Qed.

Lemma find_files_none (w : world) (kws : list string) :
  fst (find_files kws w) = None <->
  ~ (exists rows, store w = Table rows /\
       kws <> [] /\ (length kws < 1000)%nat /\
       forallb encodable kws = true /\
       forallb encodable (selection kws rows) = true).
Proof.
  destruct w as [d n]. split.
  - intros Hnone (rows & Hstore & Hkws & Hlen & Henc & Hsel).
    cbn in Hstore. subst d.
    by rewrite find_files_some in Hnone.
  - intros Hnot. destruct d as [| | |rows]; try done.
    destruct kws as [|kw kws]; [done|].
    rewrite find_files_table.
    destruct (length (kw :: kws) <? 1000)%nat eqn:Hlen; [|done].
    destruct (forallb encodable (kw :: kws)) eqn:Henc; [|done].
    destruct (forallb encodable (selection (kw :: kws) rows)) eqn:Hsel; [|done].
    destruct Hnot. exists rows. apply Nat.ltb_lt in Hlen. done.
Qed.

Lemma find_files_some_inv (w : world) (kws results : list string) :
  fst (find_files kws w) = Some results ->
  exists rows,
    store w = Table rows /\
    kws <> [] /\ (length kws < 1000)%nat /\
    forallb encodable kws = true /\
    forallb encodable (selection kws rows) = true /\
    results = selection kws rows.
Proof.
  destruct w as [d n]. destruct d as [| | |rows]; try done.
  destruct kws as [|kw kws]; [done|]. rewrite find_files_table.
  destruct (length (kw :: kws) <? 1000)%nat eqn:Hlen; [|done].
  destruct (forallb encodable (kw :: kws)) eqn:Henc; [|done].
  destruct (forallb encodable (selection (kw :: kws) rows)) eqn:Hsel; [|done].
  intros [= <-]. exists rows. apply Nat.ltb_lt in Hlen. done.
Qed.


End Search.

(** ** Searching *)












(** C6, as amended. A search with no keyword does not crash: its query ends
    at [WHERE], the statement is refused, and [find_files] returns [None],
    leaving the database as it was. *)
Theorem find_files_empty_keywords `{Platform} (w : world) :
  fst (find_files [] w) = None /\ store (snd (find_files [] w)) = store w.
Proof.
  unfold find_files, connect, Sql.select_paths.
  destruct w as [[| | |rows] n]; cbn [store connections fst snd]; try done.
Qed.

(** C6, as stated, fails: the empty search does not return every path. *)
Lemma find_files_empty_not_all :
  ~ empty_search_matches_all (H := example_platform) example_world.
Proof.
  intros (rows & results & _ & Hrun & _). by vm_compute in Hrun.
Qed.

(** ** The traversal *)

(** Induction on a tree: a property of a directory may rely on the property
    of the entries of the directory. *)
Lemma node_induction (P : node -> Prop) :
  P File ->
  (forall entries, Forall (fun e => P (snd e)) entries -> P (Dir entries)) ->
  forall n, P n.
Proof.
  intros Hfile Hdir. fix IH 1. intros [|entries]; [exact Hfile|].
  apply Hdir. induction entries as [|[name child] entries IHentries].
  - constructor.
  - constructor; [apply IH | exact IHentries].
Qed.

Lemma os_walk_dir (keep : string -> bool) (top : string) (entries : list (string * node)) :
  os_walk keep top (Dir entries) =
  (top, dir_names entries, file_names entries) ::
  flat_map (fun e => if is_dir (snd e) && keep (fst e)
                     then os_walk keep (Path.join top (fst e)) (snd e) else [])
           entries.
Proof.
  cbn [os_walk]. f_equal.
  induction entries as [|[name child] entries IH]; [done|].
  cbn [flat_map fst snd]. rewrite <- IH.
  by destruct (is_dir child && keep name).
Qed.

Lemma files_of_app (l k : list (string * list string * list string)) :
  files_of (l ++ k) = files_of l ++ files_of k.
Proof. apply flat_map_app. Qed.

Lemma files_of_flat_map {A : Type} (f : A -> list (string * list string * list string))
    (l : list A) :
  files_of (flat_map f l) = flat_map (fun x => files_of (f x)) l.
Proof.
  induction l as [|x l IH]; [done|].
  cbn [flat_map]. by rewrite files_of_app, IH.
Qed.

Lemma visits_dir (keep : string -> bool) (top : string) (entries : list (string * node)) :
  visits keep top (Dir entries) =
  map (pair top) (file_names entries) ++
  flat_map (fun e => if is_dir (snd e) && keep (fst e)
                     then visits keep (Path.join top (fst e)) (snd e) else [])
           entries.
Proof.
  unfold visits. rewrite os_walk_dir. cbn [files_of flat_map]. f_equal.
  fold (files_of (flat_map (fun e => if is_dir (snd e) && keep (fst e)
                     then os_walk keep (Path.join top (fst e)) (snd e) else []) entries)).
  rewrite files_of_flat_map. apply flat_map_ext. intros [name child]. cbn [fst snd].
  by destruct (is_dir child && keep name).
Qed.

Lemma pruned_paths_dir (keep : string -> bool) (top : string) (entries : list (string * node)) :
  pruned_paths keep top (Dir entries) =
  flat_map (fun e => if is_dir (snd e) then
                       if keep (fst e)
                       then pruned_paths keep (Path.join top (fst e)) (snd e)
                       else all_paths (Path.join top (fst e)) (snd e)
                     else [])
           entries.
Proof.
  cbn [pruned_paths].
  induction entries as [|[name child] entries IH]; [done|].
  cbn [flat_map fst snd]. by rewrite <- IH.
Qed.

Lemma map_flat_map {A B C : Type} (g : B -> C) (f : A -> list B) (l : list A) :
  map g (flat_map f l) = flat_map (fun x => map g (f x)) l.
Proof.
  induction l as [|x l IH]; [done|]. cbn [flat_map]. by rewrite map_app, IH.
Qed.

Lemma flat_map_split {A B : Type} (whole left right : A -> list B) (l : list A) :
  Forall (fun x => whole x ≡ₚ left x ++ right x) l ->
  flat_map whole l ≡ₚ flat_map left l ++ flat_map right l.
Proof.
  induction 1 as [|x l Hx _ IH]; [done|].
  cbn [flat_map]. rewrite Hx, IH. solve_Permutation.
Qed.

(** Every file of the tree is visited or lies inside a pruned directory. *)
Lemma all_paths_split (keep : string -> bool) (n : node) :
  forall top,
    all_paths top n ≡ₚ map path_of (visits keep top n) ++ pruned_paths keep top n.
Proof.
  induction n as [|entries IH] using node_induction; intros top; [done|].
  unfold all_paths. rewrite !visits_dir, pruned_paths_dir, !map_app, !map_flat_map.
  rewrite <- app_assoc. apply Permutation_app_head.
  apply flat_map_split. eapply Forall_impl; [exact IH|].
  intros [name child] Hchild. cbn [fst snd] in *.
  destruct (is_dir child); cbn [andb]; [|done].
  destruct (keep name); [apply Hchild | done].
Qed.

(** ** Distinct paths *)


(** A well-formed tree gives distinct files distinct paths. *)

Lemma valid_name_inv (name : string) :
  valid_name name = true ->
  name <> "" /\ slash_free name = true /\ Str.startswith name "/" = false.
Proof.
  unfold valid_name. intros [Hne Hfree]%andb_true_iff.
  apply negb_true_iff, String.eqb_neq in Hne.
  destruct name as [|c name]; [done|]. split_and!; [done..|].
  cbn in Hfree |- *. apply andb_true_iff in Hfree as [Hc _].
  apply negb_true_iff in Hc. rewrite Ascii.eqb_sym in Hc.
  unfold Ascii.eqb in Hc. cbn in Hc. destruct c as [[] [] [] [] [] [] [] []]; done.
Qed.

Lemma join_valid (top name : string) :
  valid_name name = true -> Path.join top name = directory_prefix top +:+ name.
Proof.
  intros (_ & _ & Hstart)%valid_name_inv. unfold Path.join, directory_prefix.
  rewrite Hstart. destruct (_ || _); [done|]. by rewrite app_assoc_str.
Qed.

Lemma endswith_app (s name : string) (c : ascii) :
  name <> "" -> Str.endswith_char (s +:+ name) c = Str.endswith_char name c.
Proof.
  intros Hne. induction s as [|a s IH]; [done|].
  rewrite app_cons. cbn [Str.endswith_char]. rewrite IH.
  destruct (s +:+ name) eqn:E; [|done].
  destruct s; [by rewrite app_empty_l in E | by rewrite app_cons in E].
Qed.

Lemma endswith_slash_free (name : string) :
  slash_free name = true -> Str.endswith_char name "/" = false.
Proof.
  induction name as [|c name IH]; [done|]. cbn [slash_free Str.endswith_char].
  intros [Hc Hfree]%andb_true_iff. apply negb_true_iff in Hc.
  destruct name; [done | by apply IH].
Qed.

Lemma directory_prefix_join (top name : string) :
  valid_name name = true ->
  directory_prefix (Path.join top name) = directory_prefix top +:+ name +:+ "/".
Proof.
  intros Hvalid. rewrite join_valid by done.
  destruct (valid_name_inv name Hvalid) as (Hne & Hfree & _).
  unfold directory_prefix at 1.
  rewrite endswith_app, endswith_slash_free, orb_false_r by done.
  destruct (String.eqb_spec (directory_prefix top +:+ name) "") as [E|_].
  - destruct (directory_prefix top); [by rewrite app_empty_l in E | by rewrite app_cons in E].
  - by rewrite app_assoc_str.
Qed.

(** A name without [/], followed by nothing or by [/] and more, is
    determined by the whole. *)
Lemma component_unique (a b t t' : string) :
  slash_free a = true -> slash_free b = true ->
  (t = "" \/ exists r, t = String "/" r) ->
  (t' = "" \/ exists r, t' = String "/" r) ->
  a +:+ t = b +:+ t' -> a = b.
Proof.
  revert b. induction a as [|c a IH]; intros [|d b] Ha Hb Ht Ht'.
  - done.
  - rewrite app_empty_l, app_cons. cbn in Hb.
    apply andb_true_iff in Hb as [Hd%negb_true_iff%Ascii.eqb_neq _].
    destruct Ht as [->|[r ->]]; [done|]. by intros [= <- _].
  - rewrite app_empty_l, app_cons. cbn in Ha.
    apply andb_true_iff in Ha as [Hc%negb_true_iff%Ascii.eqb_neq _].
    destruct Ht' as [->|[r ->]]; [done|]. by intros [= -> _].
  - rewrite !app_cons. cbn in Ha, Hb.
    apply andb_true_iff in Ha as [_ Ha]. apply andb_true_iff in Hb as [_ Hb].
    intros [= -> Heq]. f_equal. by apply (IH b).
Qed.

Lemma all_paths_dir (top : string) (entries : list (string * node)) :
  all_paths top (Dir entries) ≡ₚ flat_map (entry_paths top) entries.
Proof.
  unfold all_paths. rewrite visits_dir, map_app, map_flat_map.
  induction entries as [|[name child] entries IH]; [done|].
  unfold file_names, dir_names in *. cbn [flat_map fst snd].
  unfold entry_paths at 1. cbn [fst snd].
  destruct (is_dir child) eqn:Hdir; cbn [andb].
  - rewrite filter_cons_False by (cbn [snd]; rewrite Hdir; simpl; tauto).
    rewrite <- IH. fold (all_paths (Path.join top name) child). solve_Permutation.
  - rewrite filter_cons_True by (cbn [snd]; rewrite Hdir; simpl; tauto).
    cbn [map app]. by rewrite <- IH.
Qed.

Lemma all_paths_under (n : node) :
  well_formed n ->
  forall top path,
    path ∈ all_paths top n -> exists rest, path = directory_prefix top +:+ rest.
Proof.
  induction n as [|entries IH] using node_induction; intros Hwf top path;
    [by intros ?%elem_of_nil|].
  inversion Hwf as [|? _ Hentries]; subst.
  rewrite all_paths_dir. intros Hin.
  apply list_elem_of_In, in_flat_map in Hin as ([name child] & He & Hin).
  apply list_elem_of_In in He, Hin.
  rewrite Forall_forall in IH, Hentries.
  destruct (Hentries _ He) as [Hvalid Hchild]. cbn [fst snd] in *.
  unfold entry_paths in Hin. cbn [fst snd] in Hin.
  destruct (is_dir child).
  - destruct (IH _ He Hchild _ _ Hin) as [rest ->].
    rewrite directory_prefix_join, app_assoc_str by done. eauto.
  - apply list_elem_of_singleton in Hin as ->. rewrite join_valid by done. eauto.
Qed.

(** The paths of an entry start with the name of the entry. *)
Lemma entry_paths_tagged (top path : string) (e : string * node) :
  valid_name (fst e) = true -> well_formed (snd e) ->
  path ∈ entry_paths top e ->
  exists t,
    path = directory_prefix top +:+ fst e +:+ t /\
    (t = "" \/ exists r, t = String "/" r).
Proof.
  destruct e as [name child]. cbn [fst snd]. intros Hvalid Hchild.
  unfold entry_paths. cbn [fst snd]. destruct (is_dir child).
  - intros [rest ->]%all_paths_under; [|done].
    rewrite directory_prefix_join by done.
    exists ("/" +:+ rest). rewrite !app_assoc_str. eauto.
  - intros ->%list_elem_of_singleton. rewrite join_valid by done.
    exists "". rewrite app_empty_r. eauto.
Qed.

Lemma well_formed_distinct (n : node) :
  well_formed n -> forall top, NoDup (all_paths top n).
Proof.
  induction n as [|entries IH] using node_induction; intros Hwf top;
    [by apply NoDup_nil|].
  inversion Hwf as [|? Hnames Hentries]; subst.
  rewrite all_paths_dir.
  induction entries as [|[name child] entries IHentries]; [by apply NoDup_nil|].
  apply Forall_cons in IH as [IHchild IH].
  apply Forall_cons in Hentries as [[Hvalid Hchild] Hentries].
  cbn [map fst] in Hnames. apply NoDup_cons in Hnames as [Hname Hnames].
  cbn [flat_map fst snd] in *. apply NoDup_app. split_and!.
  - unfold entry_paths. cbn [fst snd]. destruct (is_dir child).
    + by apply IHchild.
    + apply NoDup_singleton.
  - intros path Hpath Hother.
    apply list_elem_of_In, in_flat_map in Hother as ([name' child'] & He' & Hother).
    apply list_elem_of_In in He', Hother.
    rewrite Forall_forall in Hentries. destruct (Hentries _ He') as [Hvalid' Hchild'].
    destruct (entry_paths_tagged top path (name, child) Hvalid Hchild Hpath)
      as (t & -> & Ht).
    destruct (entry_paths_tagged top _ (name', child') Hvalid' Hchild' Hother)
      as (t' & Heq & Ht').
    cbn [fst snd] in *. apply String.app_inj in Heq.
    apply component_unique in Heq; try done;
      try (by apply valid_name_inv).
    subst name'. apply Hname, elem_of_map. by exists (name, child').
  - apply IHentries; try done. by constructor.
Qed.

Lemma well_formed_distinct_paths (fs : filesystem) (dataset_path : string) :
  (forall n, lookup_path fs dataset_path = Some n -> well_formed n) ->
  distinct_paths fs dataset_path.
Proof.
  intros Hwf. unfold distinct_paths.
  destruct (lookup_path fs dataset_path) as [n|]; [|done].
  by apply well_formed_distinct, Hwf.
Qed.

(** When distinct files have distinct paths, the paths of the visited
    files are distinct, and none of them is the path of a file inside a
    pruned directory. *)
Lemma visits_distinct (keep : string -> bool) (top : string) (n : node) :
  NoDup (all_paths top n) ->
  NoDup (map path_of (visits keep top n)) /\
  forall path, path ∈ map path_of (visits keep top n) -> path ∉ pruned_paths keep top n.
Proof.
  rewrite (all_paths_split keep n top). intros (Hv & Hdisj & _)%NoDup_app. eauto.
Qed.

(** Every directory the traversal yields, the first apart, was entered
    from a directory it yielded, through a name that [keep] accepts. *)
Lemma os_walk_entered (keep : string -> bool) (n : node) :
  forall top yielded,
    yielded ∈ os_walk keep top n ->
    fst (fst yielded) = top \/
    exists parent dirs files d,
      (parent, dirs, files) ∈ os_walk keep top n /\
      d ∈ dirs /\ keep d = true /\ fst (fst yielded) = Path.join parent d.
Proof.
  induction n as [|entries IH] using node_induction; intros top yielded;
    [by intros ?%elem_of_nil|].
  rewrite os_walk_dir.
  intros [->|Hin]%elem_of_cons; [by left|]. right.
  apply list_elem_of_In, in_flat_map in Hin as ([name child] & He & Hin).
  apply list_elem_of_In in He. cbn [fst snd] in Hin.
  destruct (is_dir child) eqn:Hdir; [|done].
  destruct (keep name) eqn:Hkeep; [|done]. cbn [andb] in Hin.
  rewrite Forall_forall in IH.
  assert (forall y, y ∈ os_walk keep (Path.join top name) child ->
            y ∈ flat_map (fun e => if is_dir (snd e) && keep (fst e)
                                   then os_walk keep (Path.join top (fst e)) (snd e)
                                   else []) entries) as Hsub.
  { intros y Hy. apply list_elem_of_In, in_flat_map. exists (name, child).
    split; [by apply list_elem_of_In|]. cbn beta iota delta [fst snd].
    rewrite Hdir, Hkeep. by apply list_elem_of_In. }
  destruct (IH (name, child) He (Path.join top name) yielded)
    as [Htop|(parent & dirs & files & d & Hparent & Hd & Hk & Hy)];
    [by apply list_elem_of_In|..].
  - exists top, (dir_names entries), (file_names entries), name.
    split_and!; [apply list_elem_of_here| |done|done].
    unfold dir_names. apply elem_of_map. exists (name, child). split; [done|].
    apply list_elem_of_filter. split; [|done]. cbn [snd]. by rewrite Hdir.
  - exists parent, dirs, files, d. split_and!; try done.
    apply elem_of_cons. right. by apply Hsub.
Qed.

Lemma accepted_visited `{Platform} (extensions patterns : list string)
    (seen : list (string * string)) (path : string) :
  path ∈ accepted extensions patterns seen -> path ∈ map path_of seen.
Proof.
  unfold accepted. rewrite !elem_of_map.
  intros (v & -> & [_ Hv]%list_elem_of_filter). eauto.
Qed.

(** ** The scan *)

Section Scan.
Context `{Platform}.
Variables (fs : filesystem) (extensions patterns : list string).
Variable existing : gmap string Z.

Local Abbreviation step :=
  (fun st v => index_file fs extensions patterns existing (fst v) (snd v) st).
Local Abbreviation excl := (excluded_by extensions patterns).
Local Abbreviation acc := (accepted extensions patterns).

(** The two nested loops are one loop over the files of the traversal. *)
Lemma scan_files_of (yields : list (string * list string * list string))
    (st : scan_state) :
  foldl (index_directory fs extensions patterns existing) st yields =
  foldl step st (files_of yields).
Proof.
  revert st. induction yields as [|[[root dirs] files] yields IH]; intros st; [done|].
  cbn [foldl files_of flat_map]. rewrite foldl_app, IH. f_equal.
  unfold index_directory. generalize st. clear.
  induction files as [|f files IH]; intros st; [done|]. cbn [foldl map]. apply IH.
Qed.

Lemma step_excluded (st : scan_state) (v : string * string) :
  excl v = true ->
  step st v = {| scanned := scanned st; errors := errors st;
                 excluded := S (excluded st); cur := cur st |}.
Proof.
  unfold excluded_by, index_file, path_of. intros [Hx|Hx]%orb_true_iff.
  - by rewrite Hx.
  - rewrite Hx. by case_bool_decide.
Qed.

Lemma step_accepted (st : scan_state) (v : string * string) :
  excl v = false -> step st v = record_file fs existing (path_of v) st.
Proof.
  unfold excluded_by, index_file, path_of. intros [Hx Hp]%orb_false_iff.
  by rewrite Hx, Hp.
Qed.

Lemma accepted_snoc_excluded (seen : list (string * string)) (v : string * string) :
  excl v = true -> acc (seen ++ [v]) = acc seen.
Proof.
  intros Hx. unfold accepted.
  rewrite filter_app, filter_cons_False, filter_nil by (rewrite Hx; simpl; tauto).
  by rewrite app_nil_r.
Qed.

Lemma accepted_snoc (seen : list (string * string)) (v : string * string) :
  excl v = false -> acc (seen ++ [v]) = acc seen ++ [path_of v].
Proof.
  intros Hx. unfold accepted.
  rewrite filter_app, filter_cons_True, filter_nil by (rewrite Hx; simpl; tauto).
  by rewrite map_app.
Qed.

Lemma excluded_snoc (seen : list (string * string)) (v : string * string) :
  length (filter (fun v => excl v) (seen ++ [v])) =
  (length (filter (fun v => excl v) seen) + if excl v then 1 else 0)%nat.
Proof.
  rewrite filter_app, length_app. f_equal.
  destruct (excl v) eqn:Hx.
  - by rewrite filter_cons_True by (rewrite Hx; simpl; tauto).
  - by rewrite filter_cons_False by (rewrite Hx; simpl; tauto).
Qed.

Lemma execute_update (mtime : Z) (path : string) (c : cursor) :
  encodable path = true -> is_Some (rows_of c !! path) ->
  execute (Update mtime path) c =
  Some {| rows_of := <[path := mtime]> (rows_of c);
          executed := executed c ++ [Update mtime path] |}.
Proof.
  intros Henc [old Hold]. unfold execute, apply_statement. cbn [parameter].
  by rewrite Henc, Hold.
Qed.

Lemma execute_insert_fresh (path : string) (mtime : Z) (c : cursor) :
  encodable path = true -> rows_of c !! path = None ->
  execute (Insert path mtime) c =
  Some {| rows_of := <[path := mtime]> (rows_of c);
          executed := executed c ++ [Insert path mtime] |}.
Proof.
  intros Henc Hnone. unfold execute, apply_statement. cbn [parameter].
  by rewrite Henc, Hnone.
Qed.

Lemma execute_insert_present (path : string) (mtime : Z) (c : cursor) :
  is_Some (rows_of c !! path) -> execute (Insert path mtime) c = None.
Proof.
  intros [old Hold]. unfold execute, apply_statement. cbn [parameter].
  rewrite Hold. by destruct (encodable path).
Qed.

Lemma execute_unencodable (s : statement) (c : cursor) :
  encodable (parameter s) = false -> execute s c = None.
Proof. intros Henc. unfold execute, apply_statement. by rewrite Henc. Qed.

Lemma execute_delete (path : string) (c : cursor) :
  encodable path = true ->
  execute (Delete path) c =
  Some {| rows_of := delete path (rows_of c);
          executed := executed c ++ [Delete path] |}.
Proof.
  intros Henc. unfold execute, apply_statement. cbn [parameter]. by rewrite Henc.
Qed.

Lemma if_scanned_other {A : Type} (S : gset string) (p q : string) (a b : A) :
  p <> q ->
  (if decide (p ∈ S ∪ {[q]} /\ encodable p = true) then a else b) =
  (if decide (p ∈ S /\ encodable p = true) then a else b).
Proof. intros Hne. repeat case_decide; try done; exfalso; set_solver. Qed.

Hypothesis existing_fetchable : fetchable existing.

(** One file whose timestamp can be read. *)
Lemma record_file_readable (st : scan_state) (P : string) (mtime : Z) :
  getmtime fs P = Some mtime ->
  (forall p, rows_of (cur st) !! p =
             if decide (p ∈ scanned st /\ encodable p = true)
             then getmtime fs p else existing !! p) ->
  exists extra sent c',
    record_file fs existing P st =
      {| scanned := scanned st ∪ {[P]}; errors := errors st ++ extra;
         excluded := excluded st; cur := c' |} /\
    (extra = [] \/ (extra = [ErrorWith P] /\ existing !! P = None)) /\
    (encodable P = false -> extra = [ErrorWith P]) /\
    (forall p, rows_of c' !! p =
               if decide (p ∈ scanned st ∪ {[P]} /\ encodable p = true)
               then getmtime fs p else existing !! p) /\
    executed c' = executed (cur st) ++ sent /\
    (sent = [] \/
     (sent = [Update mtime P] \/ sent = [Insert P mtime]) /\ encodable P = true) /\
    (P ∉ scanned st -> sent = sent_for fs existing P /\ extra = refused_for P).
Proof.
  intros Hmtime Hrows. unfold record_file, sent_for, refused_for, statement_for.
  rewrite Hmtime.
  destruct (existing !! P) as [old|] eqn:Hold.
  - assert (encodable P = true) as Henc by (apply existing_fetchable; eauto).
    rewrite Henc.
    assert (is_Some (rows_of (cur st) !! P)) as Hrow.
    { rewrite Hrows. destruct (decide _); rewrite ?Hmtime, ?Hold; eauto. }
    destruct (bool_decide (old ≠ mtime)) eqn:Hchanged.
    + unfold attempt. rewrite execute_update by done.
      eexists [], [Update mtime P], _. rewrite app_nil_r.
      split_and!; try done; try (by left); [| right; auto].
      intros p. cbn [rows_of]. destruct (decide (p = P)) as [->|Hne].
      * rewrite lookup_insert_eq, decide_True by set_solver. done.
      * by rewrite lookup_insert_ne, if_scanned_other, Hrows.
    + apply bool_decide_eq_false in Hchanged. apply dec_stable in Hchanged.
      subst old. eexists [], [], _. rewrite !app_nil_r.
      split_and!; try done; try (by left).
      intros p. destruct (decide (p = P)) as [->|Hne].
      * rewrite decide_True by set_solver. rewrite Hrows.
        destruct (decide _); by rewrite ?Hmtime, ?Hold.
      * by rewrite if_scanned_other, Hrows.
  - unfold attempt. destruct (encodable P) eqn:Henc.
    + destruct (decide (P ∈ scanned st)) as [Hin|Hin].
      * rewrite execute_insert_present
          by (rewrite Hrows, decide_True, Hmtime; eauto).
        eexists [ErrorWith P], [], _. rewrite app_nil_r.
        split_and!; try done; try (by left); [by right|].
        intros p. destruct (decide (p = P)) as [->|Hne].
        -- rewrite Hrows, !decide_True by set_solver. done.
        -- by rewrite if_scanned_other, Hrows.
      * rewrite execute_insert_fresh
          by (by rewrite ?Hrows, ?decide_False by tauto).
        eexists [], [Insert P mtime], _. rewrite app_nil_r.
        split_and!; try done; try (by left); [| right; auto].
        intros p. cbn [rows_of]. destruct (decide (p = P)) as [->|Hne].
        -- rewrite lookup_insert_eq, decide_True by set_solver. done.
        -- by rewrite lookup_insert_ne, if_scanned_other, Hrows.
    + rewrite execute_unencodable by done.
      eexists [ErrorWith P], [], _. rewrite app_nil_r.
      split_and!; try done; try (by left); [by right|].
      intros p. destruct (decide (p = P)) as [->|Hne].
      * rewrite Hrows, !decide_False; [done| |]; intros [_ ?]; congruence.
      * by rewrite if_scanned_other, Hrows.
Qed.

(** What the scan has established after the files [seen]. *)
Lemma scan_invariant (seen : list (string * string)) :
  let st := foldl step (start existing) seen in
  (forall p, p ∈ scanned st <-> p ∈ acc seen /\ is_Some (getmtime fs p)) /\
  excluded st = length (filter (fun v => excl v) seen) /\
  (forall p, CannotAccess p ∈ errors st <-> p ∈ acc seen /\ getmtime fs p = None) /\
  (forall e, e ∈ errors st -> error_path e ∈ acc seen) /\
  (forall p, ErrorWith p ∈ errors st -> p ∈ scanned st /\ existing !! p = None) /\
  (forall p, p ∈ scanned st -> encodable p = false -> ErrorWith p ∈ errors st) /\
  (forall p, rows_of (cur st) !! p =
             if decide (p ∈ scanned st /\ encodable p = true)
             then getmtime fs p else existing !! p) /\
  (forall s, s ∈ executed (cur st) ->
     exists p m, (s = Update m p \/ s = Insert p m) /\
                 p ∈ scanned st /\ getmtime fs p = Some m /\ encodable p = true).
Proof.
  induction seen as [|v seen IH] using rev_ind.
  - cbn. split_and!; set_solver.
  - cbn zeta in *. rewrite foldl_app. cbn [foldl].
    set (st := foldl step (start existing) seen) in *.
    destruct IH as (Hscanned & Hexcluded & Haccess & Herrors & Hrefusals &
                    Hrefused & Hrows & Hexecuted).
    destruct (excl v) eqn:Hx.
    { rewrite step_excluded, accepted_snoc_excluded, excluded_snoc, Hx by done.
      cbn [scanned excluded errors cur]. split_and!; try done. lia. }
    rewrite step_accepted, accepted_snoc, excluded_snoc, Hx by done.
    set (P := path_of v) in *.
    destruct (getmtime fs P) as [mtime|] eqn:Hmtime.
    2:{ unfold record_file. rewrite Hmtime.
        cbn [scanned excluded errors cur]. split_and!; try done.
        - intros p. rewrite Hscanned, elem_of_app, list_elem_of_singleton.
          split; [intros [? ?]; auto|].
          intros [[?| ->] Hs]; [done|]. rewrite Hmtime in Hs. by destruct Hs.
        - lia.
        - intros p. rewrite !elem_of_app, !list_elem_of_singleton, Haccess.
          split; [intros [[? ?]|[= ->]]; auto|]. intros [[?| ->] ?]; auto.
        - intros e [?%Herrors| ->%list_elem_of_singleton]%elem_of_app;
            apply elem_of_app; [by left | right; by apply list_elem_of_singleton].
        - intros p [?|[=]%list_elem_of_singleton]%elem_of_app. auto.
        - intros p Hp Henc. apply elem_of_app. left. auto. }
    destruct (record_file_readable st P mtime Hmtime Hrows)
      as (extra & sent & c' & -> & Hextra & Hunenc & Hrows' & Hexec & Hsent & _).
    cbn [scanned excluded errors cur].
    assert (Hscanned' : forall p, p ∈ scanned st ∪ {[P]} <->
              p ∈ acc seen ++ [P] /\ is_Some (getmtime fs p)).
    { intros p. rewrite elem_of_union, elem_of_singleton, Hscanned, elem_of_app,
        list_elem_of_singleton.
      split; [intros [[? ?]| ->]; rewrite ?Hmtime; eauto|].
      intros [[?| ->] ?]; auto. }
    split_and!.
    + exact Hscanned'.
    + lia.
    + intros p. rewrite elem_of_app, Haccess, elem_of_app, list_elem_of_singleton.
      split.
      * intros [[? ?]|Hin]; [auto|].
        destruct Hextra as [->|[-> _]]; [by apply elem_of_nil in Hin|].
        by apply list_elem_of_singleton in Hin.
      * intros [[?| ->] ?]; [auto | congruence].
    + intros e [?%Herrors|Hin]%elem_of_app; apply elem_of_app; [by left|].
      right. destruct Hextra as [->|[-> _]]; [by apply elem_of_nil in Hin|].
      apply list_elem_of_singleton in Hin as ->. by apply list_elem_of_singleton.
    + intros p [[? ?]%Hrefusals|Hin]%elem_of_app; [set_solver|].
      destruct Hextra as [->|[-> ?]]; [by apply elem_of_nil in Hin|].
      apply list_elem_of_singleton in Hin as [= ->]. set_solver.
    + intros p [Hp| ->%elem_of_singleton]%elem_of_union Henc; apply elem_of_app.
      * left. auto.
      * right. rewrite Hunenc by done. by apply list_elem_of_singleton.
    + exact Hrows'.
    + intros s. rewrite Hexec. intros [Hs|Hs]%elem_of_app.
      * destruct (Hexecuted s Hs) as (p & m & ? & ? & ? & ?).
        exists p, m. split_and!; try done. set_solver.
      * destruct Hsent as [->|[Hsent Henc]]; [by apply elem_of_nil in Hs|].
        exists P, mtime. split_and!; try done; [|set_solver].
        destruct Hsent as [-> | ->]; apply list_elem_of_singleton in Hs; auto.
Qed.

(** When no path is met twice, the statements that went through and the
    errors are those of the accepted files, in the order of the scan. *)
Lemma scan_lists (seen : list (string * string)) :
  NoDup (acc seen) ->
  let st := foldl step (start existing) seen in
  executed (cur st) = flat_map (sent_for fs existing) (acc seen) /\
  errors st = flat_map (error_for fs) (acc seen).
Proof.
  induction seen as [|v seen IH] using rev_ind; intros Hnodup; [done|].
  cbn zeta in *. rewrite foldl_app. cbn [foldl].
  destruct (scan_invariant seen) as (Hscanned & _ & _ & _ & _ & _ & Hrows & _).
  cbn zeta in *.
  set (st := foldl step (start existing) seen) in *.
  destruct (excl v) eqn:Hx.
  { rewrite step_excluded, accepted_snoc_excluded by done.
    rewrite accepted_snoc_excluded in Hnodup by done.
    cbn [cur errors]. by apply IH. }
  rewrite step_accepted, accepted_snoc by done.
  rewrite accepted_snoc in Hnodup by done.
  apply NoDup_app in Hnodup as (Hnodup & Hfresh & _).
  destruct (IH Hnodup) as [IHexec IHerr].
  rewrite !flat_map_app. cbn [flat_map]. rewrite !app_nil_r.
  set (P := path_of v) in *.
  destruct (getmtime fs P) as [mtime|] eqn:Hmtime.
  - destruct (record_file_readable st P mtime Hmtime Hrows)
      as (extra & sent & c' & -> & _ & _ & _ & Hexec & _ & Hfirst).
    cbn [cur errors]. destruct Hfirst as [-> ->].
    { rewrite Hscanned. intros [Hin _]. apply (Hfresh P Hin). set_solver. }
    rewrite Hexec, IHexec, IHerr. unfold error_for, refused_for. by rewrite Hmtime.
  - unfold record_file, sent_for, statement_for, error_for. rewrite Hmtime.
    cbn [cur errors]. rewrite IHexec, IHerr.
    destruct (encodable P); by rewrite ?app_nil_r.
Qed.


(** The loop that removes the rows of the paths that were not scanned. *)
Lemma remove_loop (scanned : gset string) (keys : list string) (c : cursor) (d : nat) :
  Forall (fun p => encodable p = true) keys ->
  exists c',
    foldl (fun state path =>
             '(c, deleted) ← state;
             if bool_decide (path ∈ scanned) then Some (c, deleted)
             else c' ← execute (Delete path) c; Some (c', S deleted))
          (Some (c, d)) keys =
      Some (c', (d + length (filter (fun p => p ∉ scanned) keys))%nat) /\
    (forall p, rows_of c' !! p =
               if decide (p ∈ keys /\ p ∉ scanned) then None else rows_of c !! p) /\
    executed c' = executed c ++ map Delete (filter (fun p => p ∉ scanned) keys).
Proof.
  intros Hkeys. revert c d. induction Hkeys as [|k keys Hk _ IH]; intros c d.
  - exists c. cbn. split_and!; [f_equal; f_equal; lia| |by rewrite app_nil_r].
    intros p. rewrite decide_False; [done|]. set_solver.
  - cbn [foldl mbind option_bind]. case_bool_decide as Hin.
    + destruct (IH c d) as (c' & Hrun & Hrows & Hexec). exists c'.
      rewrite filter_cons_False by (intros Hn; by apply Hn).
      split_and!; [done| |done].
      intros p. rewrite Hrows. repeat case_decide; set_solver.
    + rewrite execute_delete by done. cbn [mbind option_bind].
      destruct (IH {| rows_of := delete k (rows_of c);
                      executed := executed c ++ [Delete k] |} (S d))
        as (c' & Hrun & Hrows & Hexec).
      exists c'. rewrite filter_cons_True by done. split_and!.
      * rewrite Hrun. cbn [length]. do 2 f_equal. lia.
      * intros p. rewrite Hrows. cbn [rows_of].
        destruct (decide (p = k)) as [->|Hne].
        -- rewrite lookup_delete_eq.
           repeat case_decide; try done; exfalso; set_solver.
        -- rewrite lookup_delete_ne by done.
           repeat case_decide; try done; exfalso; set_solver.
      * rewrite Hexec. cbn [executed map]. by rewrite <- app_assoc.
Qed.

Lemma remove_unscanned_spec (scanned : gset string) (c : cursor) :
  exists c',
    remove_unscanned scanned existing c =
      Some (c', length (filter (fun p => p ∉ scanned) (row_order select_all existing))) /\
    (forall p, rows_of c' !! p =
               if decide (is_Some (existing !! p) /\ p ∉ scanned)
               then None else rows_of c !! p) /\
    executed c' =
      executed c ++
      map Delete (filter (fun p => p ∉ scanned) (row_order select_all existing)).
Proof.
  destruct (remove_loop scanned (row_order select_all existing) c O)
    as (c' & Hrun & Hrows & Hexec).
  { apply Forall_forall. intros p Hp%elem_of_row_order. by apply existing_fetchable. }
  exists c'. split_and!; [done| |done].
  intros p. rewrite Hrows. repeat case_decide; try done.
  - rewrite elem_of_row_order in *. tauto.
  - rewrite elem_of_row_order in *. tauto.
Qed.


(** The end of a run, from the state the scan left. *)
Lemma finish_spec (st : scan_state) (w : world) :
  let unscanned := filter (fun p => p ∉ scanned st) (row_order select_all existing) in
  exists c',
    finish existing st w =
      (let s := {| scanned_paths := scanned st;
                   deleted_count := length unscanned;
                   excluded_count := excluded st;
                   error_list := errors st;
                   statements := executed (cur st) ++ map Delete unscanned |} in
       if prints_report s then Indexed s else Failed,
       {| store := Table (rows_of c'); connections := pred (connections w) |}) /\
    (forall p, rows_of c' !! p =
               if decide (is_Some (existing !! p) /\ p ∉ scanned st)
               then None else rows_of (cur st) !! p).
Proof.
  cbn zeta. destruct (remove_unscanned_spec (scanned st) (cur st))
    as (c' & Hrun & Hrows & Hexec).
  exists c'. split; [|done].
  unfold finish. rewrite Hrun, Hexec. reflexivity.
Qed.
End Scan.

(** ** A run of [index_files] *)

Section Run.
Context `{Platform}.
Variables (fs : filesystem) (dataset_path : string).
Variables (exclude_extensions exclude_patterns exclude_directories : list string).

Local Abbreviation run :=
  (sync fs dataset_path exclude_extensions exclude_patterns exclude_directories).
Local Abbreviation facts :=
  (established fs dataset_path exclude_extensions exclude_patterns exclude_directories).
Local Abbreviation files :=
  (encountered fs dataset_path exclude_extensions exclude_patterns exclude_directories).

(** A run fails before it touches the database when the root is missing or
    is not a directory. *)
Lemma sync_invalid_root (enable : bool) (w : world) :
  lookup_path fs dataset_path = None \/ lookup_path fs dataset_path = Some File ->
  run enable w = (Failed, w).
Proof. unfold sync, index_files. by intros [-> | ->]. Qed.

(** The rows a run starts from can be fetched, and are those of the table
    if there is one. *)
Lemma create_and_select_some (d : database) (existing : gmap string Z) :
  create_and_select d = Some existing ->
  fetchable existing /\ existing = baseline d /\ d <> Unopenable.
Proof.
  destruct d as [| | |rows]; cbn; try done.
  - intros [= <-]. split_and!; try done. intros p [m Hm]. by rewrite lookup_empty in Hm.
  - destruct (decodable rows) eqn:Hrows; [|done]. intros [= <-].
    split_and!; try done. by apply decodable_fetchable.
Qed.

(** On a directory and a usable database a run is the scan of the files
    of the traversal, followed by the end of the run. *)
Lemma sync_scan (enable : bool) (w : world) (entries : list (string * node))
    (existing : gmap string Z) :
  lookup_path fs dataset_path = Some (Dir entries) ->
  create_and_select (store w) = Some existing ->
  run enable w =
  finish existing
    (foldl (fun st v =>
              index_file fs
                (map normalize_extension (in_effect enable exclude_extensions))
                (in_effect enable exclude_patterns) existing (fst v) (snd v) st)
           (start existing)
           (scan_visits fs dataset_path exclude_directories enable))
    {| store := store w; connections := S (connections w) |}.
Proof.
  intros Hroot Hdb.
  destruct (create_and_select_some _ _ Hdb) as (_ & _ & Hopen).
  unfold sync, index_files. rewrite Hroot.
  unfold connect. destruct (store w) eqn:Hstore; [done|..];
    cbn [store connections]; rewrite Hdb, scan_files_of;
    unfold scan_visits; rewrite Hroot; reflexivity.
Qed.

(** On a directory and a usable database a run commits the table described
    by [established] and closes its connection; it returns [True] when the
    report could be printed. *)
Lemma sync_run (enable : bool) (w : world) (entries : list (string * node))
    (existing : gmap string Z) :
  lookup_path fs dataset_path = Some (Dir entries) ->
  create_and_select (store w) = Some existing ->
  exists s rows,
    run enable w =
      (if prints_report s then Indexed s else Failed,
       {| store := Table rows; connections := connections w |}) /\
    facts enable existing s rows /\
    (NoDup (files enable) ->
     statements s =
       flat_map (sent_for fs existing) (files enable) ++
       map Delete (filter (fun p => p ∉ scanned_paths s)
                          (row_order select_all existing)) /\
     error_list s = flat_map (error_for fs) (files enable)).
Proof.
  intros Hroot Hdb. rewrite (sync_scan enable w entries existing Hroot Hdb).
  destruct (create_and_select_some _ _ Hdb) as (Hfetch & _ & _).
  set (seen := scan_visits fs dataset_path exclude_directories enable).
  set (exts := map normalize_extension (in_effect enable exclude_extensions)).
  set (pats := in_effect enable exclude_patterns).
  destruct (scan_invariant fs exts pats existing Hfetch seen)
    as (Hscanned & Hexcluded & Haccess & Herrors & Hrefusals & Hrefused &
        Hrows & Hexecuted).
  pose proof (scan_lists fs exts pats existing Hfetch seen) as Hlists.
  cbn zeta in *.
  set (st := foldl _ _ seen) in *.
  destruct (finish_spec existing Hfetch st
              {| store := store w; connections := S (connections w) |})
    as (c' & Hfinish & Hrows').
  cbn zeta in Hfinish. rewrite Hfinish. cbn [connections pred].
  eexists _, _. split; [reflexivity|]. split.
  - split; cbn [scanned_paths excluded_count error_list statements deleted_count].
    + exact Hfetch.
    + exact Hscanned.
    + exact Hexcluded.
    + exact Haccess.
    + exact Herrors.
    + exact Hrefused.
    + exact Hrefusals.
    + intros p. rewrite Hrows', Hrows.
      destruct (decide (p ∈ scanned st /\ encodable p = true)) as [[Hp Henc]|Hn].
      * by rewrite decide_False by tauto.
      * destruct (existing !! p) as [m|] eqn:Hm; [|by destruct (decide _)].
        rewrite decide_True; [done|]. split; [eauto|].
        intros Hp. apply Hn. split; [done|]. apply Hfetch. eauto.
    + intros s [Hs|Hs]%elem_of_app.
      * destruct (Hexecuted s Hs) as (p & m & [-> | ->] & Hp & Hm & Henc); done.
      * apply elem_of_map in Hs as (p & -> & [Hp Hk]%list_elem_of_filter).
        by apply elem_of_row_order in Hk.
    + intros p Hp Hn'. apply elem_of_app. right.
      apply elem_of_map. exists p. split; [done|].
      apply list_elem_of_filter. split; [done|]. by apply elem_of_row_order.
    + by rewrite (row_order_keys select_all existing).
  - cbn [scanned_paths error_list statements]. intros Hnodup.
    destruct (Hlists Hnodup) as [-> ->]. done.
Qed.

(** A run that returns [True] found a directory and a usable database. *)
Lemma sync_indexed_inv (enable : bool) (w w' : world) (s : summary) :
  run enable w = (Indexed s, w') ->
  exists entries existing,
    lookup_path fs dataset_path = Some (Dir entries) /\
    create_and_select (store w) = Some existing.
Proof.
  unfold sync, index_files.
  destruct (lookup_path fs dataset_path) as [[|entries]|]; [done| |done].
  unfold connect. destruct w as [[| | |rows] n]; cbn [store connections]; try done.
  - intros _; eauto.
  - cbn [create_and_select]. destruct (decodable rows); [|done]. intros _; eauto.
Qed.

(** Both directions together: the runs that return [True]. *)
Lemma sync_indexed_spec (enable : bool) (w w' : world) (s : summary) :
  run enable w = (Indexed s, w') ->
  exists existing rows,
    create_and_select (store w) = Some existing /\
    w' = {| store := Table rows; connections := connections w |} /\
    prints_report s = true /\
    facts enable existing s rows /\
    (NoDup (files enable) ->
     statements s =
       flat_map (sent_for fs existing) (files enable) ++
       map Delete (filter (fun p => p ∉ scanned_paths s)
                          (row_order select_all existing)) /\
     error_list s = flat_map (error_for fs) (files enable)).
Proof.
  intros Hrun.
  destruct (sync_indexed_inv enable w w' s Hrun) as (entries & existing & Hroot & Hdb).
  destruct (sync_run enable w entries existing Hroot Hdb)
    as (s0 & rows & Hrun0 & Hs & Hlists).
  rewrite Hrun in Hrun0.
  destruct (prints_report s0) eqn:Hprints; [|done].
  injection Hrun0 as -> ->. exists existing, rows. by rewrite Hprints.
Qed.

End Run.

(** ** The properties of [index_files] *)

Section Claims.
Context `{Platform}.
Variables (fs : filesystem) (dataset_path : string).
Variables (exclude_extensions exclude_patterns exclude_directories : list string).

Local Abbreviation run :=
  (sync fs dataset_path exclude_extensions exclude_patterns exclude_directories).
Local Abbreviation files :=
  (encountered fs dataset_path exclude_extensions exclude_patterns exclude_directories).


(** C7. When the root does not exist or is not a directory,
    [index_files] returns [False] and changes nothing: the database is as
    it was and no connection was opened. *)
Theorem invalid_root_changes_nothing (enable : bool) (w : world) :
  lookup_path fs dataset_path = None \/ lookup_path fs dataset_path = Some File ->
  index_files fs dataset_path exclude_extensions exclude_patterns
              exclude_directories enable w = (Failed, w).
Proof. apply sync_invalid_root. Qed.

(** C3. What the code does when the timestamp of a file cannot be read,
    against the claim that the entry of the path is left as it was:
    [index_files] records an error for its path and goes on with the scan
    (every other file it accepts and can read is scanned); the path is
    not added to [scanned], and no [INSERT] or [UPDATE] is sent for it.
    The path is then absent from the index after the run: if it was in
    the index before, the final loop deletes its row. *)
Theorem failed_read_drops_entry (enable : bool) (w w' : world) (s : summary)
    (path : string) :
  run enable w = (Indexed s, w') ->
  path ∈ files enable ->
  getmtime fs path = None ->
  CannotAccess path ∈ error_list s /\
  (path ∉ scanned_paths s) /\
  (forall other,
     other ∈ files enable -> is_Some (getmtime fs other) ->
     other ∈ scanned_paths s) /\
  (forall mtime,
     (Update mtime path ∉ statements s) /\ (Insert path mtime ∉ statements s)) /\
  (exists rows, store w' = Table rows /\ rows !! path = None) /\
  (forall before,
     store w = Table before -> is_Some (before !! path) ->
     Delete path ∈ statements s).
Proof.
  intros (existing & rows & Hdb & -> & _ & Hs & _)%sync_indexed_spec Hfile Hmtime.
  destruct Hs as [_ Hscanned _ Haccess _ _ _ Hrows Hstmts Hdeleted _].
  assert (path ∉ scanned_paths s) as Hnot.
  { rewrite Hscanned, Hmtime. by intros [_ [? [=]]]. }
  split_and!.
  - by apply Haccess.
  - done.
  - intros other ? ?. by apply Hscanned.
  - intros mtime. split; intros (_ & ? & _)%Hstmts; congruence.
  - exists rows. split; [done|]. rewrite Hrows, decide_False; [done|]. tauto.
  - intros before Hstore Hin. apply Hdeleted; [|done].
    rewrite Hstore in Hdb. cbn in Hdb. destruct (decodable before); [|done].
    by injection Hdb as <-.
Qed.



(** C5, as amended. With [enable_exclusions] true, the traversal never
    descends into a directory whose name matches a configured directory
    pattern: every directory it yields, the root apart, was entered from a
    yielded directory through a name that matches no pattern. A file
    inside a directory that was pruned is not visited, no error names it,
    and it is absent from the index after the run. *)
Theorem excluded_directories_pruned_when_enabled (w w' : world) (s : summary) :
  distinct_paths fs dataset_path ->
  run true w = (Indexed s, w') ->
  (forall n yielded,
     lookup_path fs dataset_path = Some n ->
     yielded ∈ os_walk (keeps exclude_directories) dataset_path n ->
     fst (fst yielded) = dataset_path \/
     exists parent dirs files d,
       (parent, dirs, files) ∈ os_walk (keeps exclude_directories) dataset_path n /\
       d ∈ dirs /\ matches_any d exclude_directories = false /\
       fst (fst yielded) = Path.join parent d) /\
  (forall path,
     path ∈ inside_excluded_directory fs dataset_path exclude_directories ->
     (path ∉ map path_of (scan_visits fs dataset_path exclude_directories true)) /\
     (forall e, e ∈ error_list s -> error_path e <> path) /\
     exists rows, store w' = Table rows /\ rows !! path = None).
Proof.
  intros Hdistinct Hrun. split.
  - intros n yielded _ Hy.
    destruct (os_walk_entered _ _ _ _ Hy)
      as [?|(parent & dirs & files & d & ? & ? & Hk & ?)]; [by left|right].
    exists parent, dirs, files, d. split_and!; try done.
    unfold keeps in Hk. by apply negb_true_iff.
  - intros path Hpath.
    destruct (sync_indexed_inv _ _ _ _ _ _ _ _ _ Hrun) as (entries & _ & Hroot & _).
    apply sync_indexed_spec in Hrun as (existing & rows & _ & -> & _ & Hs & _).
    destruct Hs as [_ Hscanned _ _ Herrors _ _ Hrows _ _ _].
    unfold distinct_paths, inside_excluded_directory in *.
    assert (scan_visits fs dataset_path exclude_directories true =
            visits (keeps exclude_directories) dataset_path (Dir entries)) as Hseen
      by (unfold scan_visits; by rewrite Hroot).
    rewrite Hroot in *.
    destruct (visits_distinct (keeps exclude_directories) dataset_path
                (Dir entries) Hdistinct) as [_ Hdisj].
    assert (path ∉ map path_of (scan_visits fs dataset_path exclude_directories true))
      as Hnot.
    { rewrite Hseen. intros Hin. by apply Hdisj in Hin. }
    split_and!.
    + done.
    + intros e He%Herrors%accepted_visited Heq. rewrite Heq in He. by apply Hnot.
    + exists rows. split; [done|]. rewrite Hrows, decide_False; [done|].
      intros [[Hin%accepted_visited _]%Hscanned _]. by apply Hnot.
Qed.
End Claims.

(** ** Connections *)

(** [find_files] closes its connection when it returns results; when a
    statement raises, the handler returns without closing it. *)
Lemma find_files_connection `{Platform} (keywords : list string) (w : world) :
  connections (snd (find_files keywords w)) =
  match fst (find_files keywords w), store w with
  | Some _, _ => connections w
  | None, Unopenable => connections w
  | None, _ => S (connections w)
  end.
Proof.
  unfold find_files, connect.
  destruct w as [[| | |rows] n]; cbn [store connections]; try done.
  by destruct (Sql.select_paths _ _ _).
Qed.

(** [index_files] closes its connection when it has committed; when the
    first statements raise, the handler returns without closing it. *)
Lemma index_files_connection `{Platform} (fs : filesystem) (dataset_path : string)
    (exclude_extensions exclude_patterns exclude_directories : list string)
    (enable : bool) (w : world) :
  let r := index_files fs dataset_path exclude_extensions exclude_patterns
                       exclude_directories enable w in
  connections (snd r) =
  match lookup_path fs dataset_path, create_and_select (store w), store w with
  | Some (Dir _), None, Unopenable => connections w
  | Some (Dir _), None, _ => S (connections w)
  | _, _, _ => connections w
  end.
Proof.
  cbn zeta. destruct (lookup_path fs dataset_path) as [[|entries]|] eqn:Hroot.
  - by rewrite (sync_invalid_root fs dataset_path exclude_extensions exclude_patterns
                  exclude_directories enable w) by auto.
  - destruct (create_and_select (store w)) as [existing|] eqn:Hdb.
    + destruct (sync_run fs dataset_path exclude_extensions exclude_patterns
                  exclude_directories enable w entries existing Hroot Hdb)
        as (s & rows & Hrun & _).
      unfold sync in Hrun. by rewrite Hrun.
    + unfold index_files, connect. rewrite Hroot.
      destruct w as [[| | |rows] n]; cbn [store connections] in *; try done.
      by rewrite Hdb.
  - by rewrite (sync_invalid_root fs dataset_path exclude_extensions exclude_patterns
                  exclude_directories enable w) by auto.
Qed.

(** ** The examples *)

(** On the platform of the examples a run on a directory and a usable
    database returns [True]. *)
Lemma example_run (fs : filesystem) (dataset_path : string)
    (exclude_extensions exclude_patterns exclude_directories : list string)
    (enable : bool) (w : world) (entries : list (string * node))
    (existing : gmap string Z) :
  lookup_path fs dataset_path = Some (Dir entries) ->
  create_and_select (H := example_platform) (store w) = Some existing ->
  exists s rows,
    sync (H := example_platform) fs dataset_path exclude_extensions exclude_patterns
         exclude_directories enable w =
      (Indexed s, {| store := Table rows; connections := connections w |}) /\
    established (H := example_platform) fs dataset_path exclude_extensions
                exclude_patterns exclude_directories enable existing s rows.
Proof.
  intros Hroot Hdb.
  destruct (sync_run (H := example_platform) fs dataset_path exclude_extensions
              exclude_patterns exclude_directories enable w entries existing Hroot Hdb)
    as (s & rows & Hrun & Hs & _).
  exists s, rows. split; [exact Hrun | exact Hs].
Qed.

(** The functions of the standard library, on a few inputs. *)
Example splitext_examples :
  Path.splitext "/data/tmp/cache.tmp" = ("/data/tmp/cache", ".tmp") /\
  Path.splitext "/data/archive.tar.GZ" = ("/data/archive.tar", ".GZ") /\
  Path.splitext "/data.d/report" = ("/data.d/report", "") /\
  Path.splitext "/data/.tmp" = ("/data/.tmp", "").
Proof. by vm_compute. Qed.

Example join_examples :
  Path.join "/data" "report.txt" = "/data/report.txt" /\
  Path.join "/data/" "report.txt" = "/data/report.txt" /\
  Path.join "/data" "/etc" = "/etc".
Proof. by vm_compute. Qed.

Example normalize_extension_examples :
  map (normalize_extension (H := example_platform)) ["tmp"; ".LOG"; "PyC"] =
  [".tmp"; ".log"; ".pyc"].
Proof. by vm_compute. Qed.

Example os_walk_example :
  os_walk (fun _ => true) "/data" example_tree =
    [("/data", ["tmp"], ["report.txt"]); ("/data/tmp", [], ["cache.tmp"])] /\
  os_walk (keeps (H := example_platform) ["t?p"]) "/data" example_tree =
    [("/data", ["tmp"], ["report.txt"])].
Proof. by vm_compute. Qed.

(** [LIKE] reads a text up to its first NUL. *)
Example like_examples :
  Wildcard.like "%REPORT%" "/data/report.txt" = true /\
  Wildcard.like "%r_p%t%" "/data/report.txt" = true /\
  Wildcard.like "%txt%" ("/data/report" +:+ String Str.nul ".txt") = false /\
  Wildcard.like ("%port" +:+ String Str.nul "%") "/data/report.txt" = false /\
  Wildcard.like ("%txt" +:+ String Str.nul "%") "/data/report.txt" = true.
Proof. by vm_compute. Qed.

(** The first example of the specification: the extension [.tmp] is
    excluded; the run leaves [/data/report.txt] in the index and counts one
    excluded file; then the two searches. *)
Example specification_example :
  let r := example_sync [".tmp"] [] [] true fresh_world in
  succeeded (fst r) = true /\
  snd r = example_world /\
  excluded_count (summary_of (fst r)) = 1%nat /\
  statements (summary_of (fst r)) = [Insert "/data/report.txt" 1700000000] /\
  fst (find_files (H := example_platform) ["report"] (snd r)) =
    Some ["/data/report.txt"] /\
  fst (find_files (H := example_platform) ["report"; "cache"] (snd r)) = Some [].
Proof. by vm_compute. Qed.

(** The second example: after [/data/report.txt] was touched, the run
    sends one [UPDATE] and deletes nothing. *)
Example specification_example_touched :
  let r := sync (H := example_platform) touched_fs "/data" [".tmp"] [] [] true
             example_world in
  succeeded (fst r) = true /\
  size (scanned_paths (summary_of (fst r))) = 1%nat /\
  deleted_count (summary_of (fst r)) = O /\
  statements (summary_of (fst r)) = [Update 1700000999 "/data/report.txt"] /\
  store (snd r) = Table {[ "/data/report.txt" := 1700000999%Z ]}.
Proof. by vm_compute. Qed.

(** A file whose name is no UTF-8: the run scans it, its [INSERT] is
    refused and recorded as an error, and the table does not hold it; the
    next run sends the [INSERT] again. *)
Example raw_name_example :
  let r := raw_sync [] [] [] false fresh_world in
  succeeded (fst r) = true /\
  size (scanned_paths (summary_of (fst r))) = 2%nat /\
  error_list (summary_of (fst r)) = [ErrorWith raw_path] /\
  statements (summary_of (fst r)) = [Insert "/data/report.txt" 1700000000] /\
  store (snd r) = Table example_index /\
  error_list (summary_of (fst (raw_sync [] [] [] false (snd r)))) =
    [ErrorWith raw_path].
Proof. by vm_compute. Qed.

(** A console that refuses the report: the run has committed and returns
    [False]. *)
Example mute_example :
  sync (H := mute_platform) example_fs "/data" [".tmp"] [] [] true fresh_world =
  (Failed, example_world).
Proof. by vm_compute. Qed.

(** C9 fails on the error exits. A search on a database without the [files]
    table, a search with no keyword, and an indexing run on a file that is
    not a database all return through a handler, with the connection they
    opened still open: [db.close()] is on the success path only. *)
Theorem error_exit_keeps_connection_open `{Platform} :
  find_files ["report"] fresh_world =
    (None, {| store := NoTable; connections := 1 |}) /\
  find_files [] example_world =
    (None, {| store := Table example_index; connections := 1 |}) /\
  example_sync [] [] [] false foreign_world =
    (Failed, {| store := NotADatabase; connections := 1 |}) /\
  ~ releases_connection (find_files ["report"]) /\
  ~ releases_connection (find_files []) /\
  ~ releases_connection (example_sync [] [] [] false).
Proof.
  split_and!; try reflexivity.
  - intros Hrel. by specialize (Hrel fresh_world).
  - intros Hrel. by specialize (Hrel example_world).
  - intros Hrel. by specialize (Hrel foreign_world).
Qed.

Lemma example_tree_well_formed : well_formed example_tree.
Proof.
  apply well_formed_dir; [apply (bool_decide_unpack _); by vm_compute|].
  apply Forall_cons; split; [split; [reflexivity | apply well_formed_file]|].
  apply Forall_cons; split; [split; [reflexivity|] | by apply Forall_nil].
  apply well_formed_dir; [apply (bool_decide_unpack _); by vm_compute|].
  apply Forall_cons; split; [split; [reflexivity | apply well_formed_file]|].
  by apply Forall_nil.
Qed.

Lemma example_paths_distinct : distinct_paths example_fs "/data".
Proof.
  apply well_formed_distinct_paths. intros n [= <-]. apply example_tree_well_formed.
Qed.



Lemma failed_read_drops_entry_witness :
  CannotAccess "/data/dangling"
    ∈ error_list (summary_of (fst (dangling_sync [] [] [] false stale_world))) /\
  (exists rows,
     store (snd (dangling_sync [] [] [] false stale_world)) = Table rows /\
     rows !! "/data/dangling" = None) /\
  Delete "/data/dangling"
    ∈ statements (summary_of (fst (dangling_sync [] [] [] false stale_world))).
Proof.
  destruct (failed_read_drops_entry (H := example_platform) dangling_fs "/data" [] [] []
              false stale_world
              (snd (dangling_sync [] [] [] false stale_world))
              (summary_of (fst (dangling_sync [] [] [] false stale_world)))
              "/data/dangling")
    as (Herr & _ & _ & _ & Hrow & Hdel).
  - by vm_compute.
  - vm_compute. apply list_elem_of_In. cbn. tauto.
  - reflexivity.
  - split_and!; [exact Herr | exact Hrow |]. apply (Hdel stale_index); [reflexivity|].
    exists 1600000000%Z. by vm_compute.
Defined.

(** C3, as stated, fails: the row of [/data/dangling], in the index before
    the run, is gone after it. *)
Lemma failed_read_loses_entry :
  ~ failed_read_keeps_entry (H := example_platform) dangling_fs "/data" [] [] [] false
      stale_world.
Proof.
  intros Hclaim.
  destruct (example_run dangling_fs "/data" [] [] [] false
              stale_world _ stale_index eq_refl eq_refl) as (s & rows & Hrun & Hs).
  destruct (Hclaim _ _ "/data/dangling" Hrun) as (_ & Hnot & Hkeep).
  { vm_compute. apply list_elem_of_In. cbn. tauto. }
  { reflexivity. }
  destruct (Hkeep stale_index) as (after & [= <-] & Hrow);
    [reflexivity | exists 1600000000%Z; by vm_compute |].
  destruct Hs as [_ _ _ _ _ _ _ Hrows _ _ _].
  rewrite Hrows, decide_False in Hrow by tauto.
  by vm_compute in Hrow.
Qed.

Lemma invalid_root_changes_nothing_witness :
  index_files (H := example_platform) example_fs "/nowhere" ["tmp"] [] [] true example_world
    = (Failed, example_world) /\
  index_files (H := example_platform) example_fs "/data/report.txt" ["tmp"] [] [] true
    example_world = (Failed, example_world).
Proof.
  split.
  - apply (invalid_root_changes_nothing (H := example_platform)). left. reflexivity.
  - apply (invalid_root_changes_nothing (H := example_platform)). right. reflexivity.
Defined.




Lemma excluded_directories_pruned_when_enabled_witness :
  (("/data/tmp/cache.tmp"
    ∉ map path_of (scan_visits (H := example_platform) example_fs "/data" ["tmp"] true)) /\
   (forall e,
      e ∈ error_list (summary_of (fst (example_sync [] [] ["tmp"] true stale_world))) ->
      error_path e <> "/data/tmp/cache.tmp") /\
   exists rows,
     store (snd (example_sync [] [] ["tmp"] true stale_world)) = Table rows /\
     rows !! "/data/tmp/cache.tmp" = None).
Proof.
  apply (proj2 (excluded_directories_pruned_when_enabled (H := example_platform)
                  example_fs "/data" [] [] ["tmp"] stale_world
                  (snd (example_sync [] [] ["tmp"] true stale_world))
                  (summary_of (fst (example_sync [] [] ["tmp"] true stale_world)))
                  example_paths_distinct ltac:(by vm_compute))).
  vm_compute. apply list_elem_of_In. cbn. tauto.
Defined.

(** C5, as stated, fails: with exclusions disabled, a configured directory
    pattern prunes nothing, and the file inside [tmp] is visited. *)
Lemma disabled_rules_prune_nothing :
  ~ excluded_directories_skipped (H := example_platform) example_fs "/data" [] [] ["tmp"]
      false fresh_world.
Proof.
  intros Hclaim.
  destruct (example_run example_fs "/data" [] [] ["tmp"] false
              fresh_world _ ∅ eq_refl eq_refl) as (s & rows & Hrun & _).
  destruct (Hclaim _ _ "/data/tmp/cache.tmp" Hrun) as (Hnot & _).
  { vm_compute. apply list_elem_of_In. cbn. tauto. }
  apply Hnot. vm_compute. apply list_elem_of_In. cbn. tauto.
Qed.


(** * Further properties *)

(** ** Searching *)

Lemma filter_all {A : Type} (P : A -> Prop) `{forall x, Decision (P x)} (l : list A) :
  (forall x, x ∈ l -> P x) -> filter P l = l.
Proof.
  induction l as [|x l IH]; intros Hall; [done|].
  rewrite filter_cons_True by (apply Hall; left).
  f_equal. apply IH. intros y Hy. apply Hall. by right.
Qed.

Lemma selects_everywhere (kw path : string) :
  kw = "" \/ kw = "%" -> keyword_selects kw path.
Proof.
  intros [-> | ->]; unfold keyword_selects; cbn.
  - exists "", "", (Str.c_string path). split; [done | constructor].
  - exists "", (Str.c_string path), "".
    split; [by rewrite app_empty_l, app_empty_r | apply denotes_any].
Qed.


(** The selections of two lists of keywords that select the same paths
    hold the same rows. *)
Lemma selection_same `{Platform} (keywords keywords' : list string)
    (rows : gmap string Z) :
  (forall path,
     Forall (fun kw => keyword_selects kw path) keywords <->
     Forall (fun kw => keyword_selects kw path) keywords') ->
  selection keywords rows ≡ₚ selection keywords' rows.
Proof.
  intros Hsame. apply NoDup_Permutation; try apply NoDup_selection.
  intros path. rewrite !elem_of_selection. by rewrite Hsame.
Qed.

Lemma find_files_same `{Platform} (keywords keywords' : list string) (w : world) :
  keywords <> [] -> keywords' <> [] ->
  (length keywords < 1000)%nat -> (length keywords' < 1000)%nat ->
  forallb encodable keywords = forallb encodable keywords' ->
  (forall path,
     Forall (fun kw => keyword_selects kw path) keywords <->
     Forall (fun kw => keyword_selects kw path) keywords') ->
  same_rows (find_files keywords w) (find_files keywords' w).
Proof.
  intros Hne Hne' Hlen Hlen' Henc Hsame.
  destruct keywords as [|kw kws]; [done|]. destruct keywords' as [|kw' kws']; [done|].
  destruct w as [d n]. destruct d as [| | |rows]; try done.
  rewrite !find_files_table.
  rewrite (proj2 (Nat.ltb_lt _ _) Hlen), (proj2 (Nat.ltb_lt _ _) Hlen'), Henc.
  pose proof (selection_same (kw :: kws) (kw' :: kws') rows Hsame) as Hperm.
  assert (forallb encodable (selection (kw :: kws) rows) =
          forallb encodable (selection (kw' :: kws') rows)) as ->.
  { apply eq_true_iff_eq. rewrite !forallb_Forall. by rewrite Hperm. }
  destruct (_ && _ && _); by split.
Qed.





(** X3. A further keyword narrows a search: every path [find_files]
    returns for a list of keywords and more is returned for the list,
    whenever the search on the list returns; and it does when the paths of
    the table can be fetched. (A row that cannot be fetched and that only
    the shorter list selects makes the search on the shorter list fail.) *)
Theorem find_files_narrows `{Platform} (keywords more : list string) (w : world)
    (results : list string) :
  keywords <> [] ->
  fst (find_files (keywords ++ more) w) = Some results ->
  (forall wider,
     fst (find_files keywords w) = Some wider ->
     forall path, path ∈ results -> path ∈ wider) /\
  ((forall rows, store w = Table rows -> fetchable rows) ->
   is_Some (fst (find_files keywords w))).
Proof.
  intros Hne Hrun.
  apply find_files_some_inv in Hrun as (rows & Hstore & _ & Hlen & Henc & Hsel & ->).
  destruct w as [d n]. cbn in Hstore. subst d.
  rewrite length_app in Hlen.
  apply forallb_Forall, Forall_app in Henc as [Henc _].
  apply forallb_Forall in Henc.
  split.
  - intros wider (rows' & [= <-] & _ & _ & _ & _ & ->)%find_files_some_inv.
    intros path [Hrow Hall]%elem_of_selection.
    apply elem_of_selection. split; [done|]. by apply Forall_app in Hall as [? _].
  - intros Hfetch. rewrite find_files_some; [by eexists|done|lia|done|].
    apply selection_fetchable. by apply Hfetch.
Qed.

Lemma find_files_narrows_witness :
  (forall wider,
     fst (find_files (H := example_platform) ["report"] example_world) = Some wider ->
     forall path, path ∈ ["/data/report.txt"] -> path ∈ wider) /\
  ((forall rows, store example_world = Table rows ->
                 fetchable (H := example_platform) rows) ->
   is_Some (fst (find_files (H := example_platform) ["report"] example_world))).
Proof.
  apply (find_files_narrows (H := example_platform) ["report"] ["txt"] example_world);
    [done|]. by vm_compute.
Defined.

(** The search on the shorter list can fail where the longer one returns:
    the keyword [data] selects the row that cannot be fetched, and the
    keywords [data] and [report] together do not. *)
Example find_files_wider_fails :
  fst (find_files (H := example_platform) ["data"; "report"] raw_world) =
    Some ["/data/report.txt"] /\
  fst (find_files (H := example_platform) ["data"] raw_world) = None.
Proof. by vm_compute. Qed.

(** X4. An empty keyword restricts nothing, and neither does the keyword
    [%]: alone it makes [find_files] return every indexed path, when every
    path can be fetched, and beside other keywords it can be left out. (The
    empty list of keywords, on the contrary, is refused.) *)
Theorem find_files_empty_keyword `{Platform} (kw : string) (keywords : list string)
    (w : world) :
  kw = "" \/ kw = "%" ->
  (forall rows,
     store w = Table rows -> fetchable rows ->
     exists results,
       find_files [kw] w = (Some results, w) /\
       results ≡ₚ map fst (map_to_list rows)) /\
  (keywords <> [] -> (length keywords < 999)%nat ->
   same_rows (find_files (kw :: keywords) w) (find_files keywords w)).
Proof.
  intros Hkw. split.
  - intros rows Hstore Hfetch. destruct w as [d n]. cbn in Hstore. subst d.
    exists (selection [kw] rows). split.
    + apply find_files_some; [done | cbn [length]; lia | |by apply selection_fetchable].
      cbn [forallb]. rewrite andb_true_r. apply encodable_ascii.
      by destruct Hkw as [-> | ->].
    + unfold selection. rewrite filter_all; [apply row_order_keys|].
      intros path _. apply Is_true_true, forallb_forall.
      intros pat [<-|[]]. apply like_keyword. by apply selects_everywhere.
  - intros Hne Hlen. apply find_files_same; try done.
    + cbn [length]. lia.
    + lia.
    + cbn [forallb]. rewrite encodable_ascii; [done|]. by destruct Hkw as [-> | ->].
    + intros path. rewrite Forall_cons. split; [tauto|].
      intros Hall. split; [by apply selects_everywhere | done].
Qed.

Lemma find_files_empty_keyword_witness :
  (exists results,
     find_files (H := example_platform) [""] example_world = (Some results, example_world) /\
     results ≡ₚ map fst (map_to_list example_index)) /\
  same_rows (find_files (H := example_platform) [""; "report"] example_world)
            (find_files (H := example_platform) ["report"] example_world).
Proof.
  destruct (find_files_empty_keyword (H := example_platform) "" ["report"] example_world)
    as [Hall Hdrop]; [by left|].
  split.
  - apply (Hall example_index eq_refl).
    apply (decodable_fetchable (H := example_platform)). reflexivity.
  - apply Hdrop; [done | cbn [length]; lia].
Defined.

(** ** Indexing: success, deletion, counts *)


Section Reconciliation.
Context `{Platform}.
Variables (fs : filesystem) (dataset_path : string).
Variables (exclude_extensions exclude_patterns exclude_directories : list string).

Local Abbreviation run :=
  (sync fs dataset_path exclude_extensions exclude_patterns exclude_directories).
Local Abbreviation facts :=
  (established fs dataset_path exclude_extensions exclude_patterns exclude_directories).







End Reconciliation.





(** ** Indexing: the statements and the errors of a scan *)




Section RunLog.
Context `{Platform}.
Variables (fs : filesystem) (dataset_path : string).
Variables (exclude_extensions exclude_patterns exclude_directories : list string).

Local Abbreviation run :=
  (sync fs dataset_path exclude_extensions exclude_patterns exclude_directories).
Local Abbreviation files :=
  (encountered fs dataset_path exclude_extensions exclude_patterns exclude_directories).



End RunLog.



(** ** Indexing: how the rules combine *)






Section Extensions.
Context `{Platform}.

Lemma startswith_dot (s : string) :
  Str.startswith s "." = true <-> exists rest, s = String "." rest.
Proof.
  unfold Str.startswith. destruct s as [|c s]; cbn [String.prefix].
  - split; [done | by intros [? [=]]].
  - destruct (ascii_dec "." c) as [<-|Hc].
    + split; [eauto | by destruct s].
    + split; [done | intros [? [= ->]]; done].
Qed.

Lemma startswith_dot_lower (s : string) :
  Str.startswith (lower s) "." = Str.startswith s ".".
Proof.
  destruct (Str.startswith s ".") eqn:E.
  - apply startswith_dot in E as [rest ->]. rewrite lower_dot.
    apply startswith_dot. by eexists.
  - destruct (Str.startswith (lower s) ".") eqn:E'; [|done].
    apply lower_dotted in E'. congruence.
Qed.

Lemma normalize_extension_lower (ext : string) :
  normalize_extension (lower ext) = normalize_extension ext.
Proof. unfold normalize_extension. by rewrite startswith_dot_lower, lower_lower. Qed.

Lemma normalize_extension_dotted (ext : string) :
  Str.startswith ext "." = false ->
  normalize_extension ("." +:+ ext) = normalize_extension ext.
Proof.
  intros Hext. unfold normalize_extension. rewrite Hext.
  change ("." +:+ ext) with (String "." ext).
  rewrite (proj2 (startswith_dot _)) by eauto. apply lower_dot.
Qed.

Lemma normalize_extension_idemp (ext : string) :
  normalize_extension (normalize_extension ext) = normalize_extension ext.
Proof.
  unfold normalize_extension at 2. destruct (Str.startswith ext ".") eqn:Hext.
  - apply normalize_extension_lower.
  - rewrite normalize_extension_dotted by by rewrite startswith_dot_lower.
    apply normalize_extension_lower.
Qed.

Lemma index_files_extensions (fs : filesystem) (dataset_path : string)
    (extensions extensions' patterns directories : list string)
    (enable_exclusions : bool) (w : world) :
  map normalize_extension extensions = map normalize_extension extensions' ->
  index_files fs dataset_path extensions patterns directories enable_exclusions w =
  index_files fs dataset_path extensions' patterns directories enable_exclusions w.
Proof.
  intros Heq. unfold index_files. destruct enable_exclusions; [|done].
  cbv zeta. by rewrite Heq.
Qed.

(** X12. The spelling of the configured extensions does not matter beyond
    case and a leading dot: a run gives the same result and leaves the same
    state when the extensions are given lowercased, when the ones without a
    leading dot are given with one, and when they are given in the
    normalised form the run computes itself. *)
Theorem extension_spelling_is_irrelevant (fs : filesystem)
    (dataset_path : string) (extensions patterns directories : list string)
    (enable_exclusions : bool) (w : world) :
  let run extensions :=
    index_files fs dataset_path extensions patterns directories enable_exclusions w in
  run (map lower extensions) = run extensions /\
  run (map (fun ext => if Str.startswith ext "." then ext else "." +:+ ext) extensions)
    = run extensions /\
  run (map normalize_extension extensions) = run extensions.
Proof.
  cbv zeta. split_and!; apply index_files_extensions; rewrite map_map;
    apply map_ext; intros ext.
  - apply normalize_extension_lower.
  - destruct (Str.startswith ext ".") eqn:Hext; [done|].
    by apply normalize_extension_dotted.
  - apply normalize_extension_idemp.
Qed.
End Extensions.

(** ** Indexing, then searching *)



(** ** The configuration *)

Lemma set_default_object (key : string) (value : json) (fields : gmap string json) :
  set_default key value (JObject fields) = Some (JObject (fields ∪ {[ key := value ]})).
Proof.
  unfold set_default, contains, set_item. case_bool_decide as Hkey.
  - do 2 f_equal. apply map_eq. intros k. rewrite lookup_union.
    destruct (decide (k = key)) as [->|Hk].
    + destruct Hkey as [v ->]. by rewrite lookup_singleton_eq.
    + rewrite lookup_singleton_ne by done. by destruct (fields !! k).
  - do 2 f_equal. apply insert_union_singleton_r.
    by apply eq_None_not_Some.
Qed.

(** On a JSON object [load_config] asks for the two required keys and adds
    the defaults under the optional keys that are absent. *)
Lemma load_config_fields (fields : gmap string json) :
  load_config (Parsed (JObject fields)) =
  if bool_decide (is_Some (fields !! "dataset_path")) then
    if bool_decide (is_Some (fields !! "db_path")) then
      inr (JObject (fields ∪ config_defaults))
    else inl DbPathMissing
  else inl DatasetPathMissing.
Proof.
  unfold load_config. cbn [contains].
  destruct (bool_decide (is_Some (fields !! "dataset_path"))); [|done].
  destruct (bool_decide (is_Some (fields !! "db_path"))); [|done].
  rewrite set_default_object. cbn [mbind option_bind].
  rewrite set_default_object. cbn [mbind option_bind].
  rewrite set_default_object. cbn [mbind option_bind].
  rewrite set_default_object.
  by rewrite <- !(assoc_L (∪)).
Qed.

Lemma loaded_lookup (fields : gmap string json) (key : string) :
  (fields ∪ config_defaults) !! key =
  match fields !! key with Some v => Some v | None => config_defaults !! key end.
Proof.
  rewrite lookup_union. destruct (fields !! key), (config_defaults !! key); done.
Qed.

(** X14. What [load_config] makes of a JSON object: it is refused exactly
    when [dataset_path] is absent, or else [db_path] is, with the message of
    the first one missing; otherwise the result is the object itself with
    every key and value it had, and, under those of the four optional keys
    that were absent, the empty list or [False]. No other key is added and
    no value is checked or changed. *)
Theorem load_config_object (fields : gmap string json) :
  match load_config (Parsed (JObject fields)) with
  | inl e =>
      (e = DatasetPathMissing /\ fields !! "dataset_path" = None) \/
      (e = DbPathMissing /\ is_Some (fields !! "dataset_path") /\
       fields !! "db_path" = None)
  | inr config =>
      is_Some (fields !! "dataset_path") /\ is_Some (fields !! "db_path") /\
      exists loaded,
        config = JObject loaded /\
        fields ⊆ loaded /\
        dom loaded = dom fields ∪ dom config_defaults /\
        forall key, fields !! key = None -> loaded !! key = config_defaults !! key
  end.
Proof.
  rewrite load_config_fields.
  case_bool_decide as Hdata; [|left; by rewrite eq_None_not_Some].
  case_bool_decide as Hdb;
    [|right; split_and!; [done..|by rewrite eq_None_not_Some]].
  split_and!; [done..|]. exists (fields ∪ config_defaults). split_and!.
  - done.
  - apply map_union_subseteq_l.
  - apply dom_union_L.
  - intros key Hkey. by rewrite loaded_lookup, Hkey.
Qed.

Lemma set_default_other (key : string) (value : json) (config config' : json) :
  (forall fields, config <> JObject fields) ->
  set_default key value config = Some config' ->
  config' = config /\ contains config key = Some true.
Proof.
  intros Hconfig. unfold set_default.
  destruct (contains config key) as [[]|]; [by intros [= ->] | | done].
  destruct config; try done. by destruct (Hconfig fields).
Qed.

(** A value that is not an object passes [load_config] only unchanged, and
    only when it holds the six names. *)
Lemma load_config_other (document config : json) :
  (forall fields, document <> JObject fields) ->
  load_config (Parsed document) = inr config ->
  config = document /\
  Forall (fun key => contains document key = Some true) config_keys.
Proof.
  intros Hdoc. unfold load_config.
  destruct (contains document "dataset_path") as [[]|] eqn:H1; try done.
  destruct (contains document "db_path") as [[]|] eqn:H2; try done.
  destruct (set_default "exclude_extensions" _ document) as [c1|] eqn:H3; [|done].
  apply set_default_other in H3 as [-> H3]; [|done]. cbn [mbind option_bind].
  destruct (set_default "exclude_patterns" _ document) as [c2|] eqn:H4; [|done].
  apply set_default_other in H4 as [-> H4]; [|done]. cbn [mbind option_bind].
  destruct (set_default "exclude_directories" _ document) as [c3|] eqn:H5; [|done].
  apply set_default_other in H5 as [-> H5]; [|done]. cbn [mbind option_bind].
  destruct (set_default "enable_exclusions" _ document) as [c4|] eqn:H6; [|done].
  apply set_default_other in H6 as [-> H6]; [|done].
  intros [= <-]. split; [done|]. by repeat constructor.
Qed.

Lemma load_config_unchanged (config : json) :
  Forall (fun key => contains config key = Some true) config_keys ->
  load_config (Parsed config) = inr config.
Proof.
  intros Hkeys. unfold config_keys in Hkeys.
  repeat match goal with
         | Hk : Forall _ (_ :: _) |- _ => apply Forall_cons in Hk as [? Hk]
         end.
  unfold load_config, set_default.
  by repeat match goal with
            | Hk : contains config _ = Some true |- _ =>
                rewrite Hk; cbn [mbind option_bind]; clear Hk
            end.
Qed.

Lemma load_config_holds_keys (file : config_file) (config : json) :
  load_config file = inr config ->
  Forall (fun key => contains config key = Some true) config_keys /\
  ((exists fields, file = Parsed (JObject fields)) \/ file = Parsed config).
Proof.
  intros Hload. destruct file as [| | |document]; try done.
  destruct document as [| | | | |fields];
    try (apply load_config_other in Hload as [-> ?]; [by auto | done]).
  split; [|eauto]. rewrite load_config_fields in Hload.
  case_bool_decide as Hdata; [|done]. case_bool_decide as Hdb; [|done].
  injection Hload as <-. cbn [contains].
  unfold config_keys.
  repeat (apply Forall_cons_2; [f_equal; apply bool_decide_eq_true;
                                rewrite loaded_lookup|]);
    [..|apply Forall_nil_2];
    match goal with
    | |- is_Some (match fields !! ?key with _ => _ end) =>
        destruct (fields !! key) eqn:Hkey; [by eexists|]
    end;
    first [ by destruct Hdata | by destruct Hdb | by eexists ].
Qed.

(** X15. A value is returned by [load_config] as it is exactly when it
    holds the six names the program reads; and whatever [load_config]
    returns is such a value: loading is idempotent. A result that is not an
    object is the document itself: a JSON list or string that holds the six
    names passes unchanged. *)
Theorem load_config_loaded (file : config_file) (config : json) :
  (load_config (Parsed config) = inr config <->
   Forall (fun key => contains config key = Some true) config_keys) /\
  (load_config file = inr config ->
   load_config (Parsed config) = inr config /\
   ((exists fields, file = Parsed (JObject fields)) \/ file = Parsed config)).
Proof.
  split.
  - split; [|apply load_config_unchanged].
    intros Hload. by destruct (load_config_holds_keys _ _ Hload).
  - intros Hload. destruct (load_config_holds_keys file config Hload) as [Hkeys Hfile].
    split; [by apply load_config_unchanged | done].
Qed.

Lemma load_config_loaded_witness :
  load_config (Parsed (JObject (example_config ∪ config_defaults)))
    = inr (JObject (example_config ∪ config_defaults)) /\
  ((exists fields, Parsed (JObject example_config) = Parsed (JObject fields)) \/
   Parsed (JObject example_config) = Parsed (JObject (example_config ∪ config_defaults))).
Proof.
  apply (proj2 (load_config_loaded (Parsed (JObject example_config))
                  (JObject (example_config ∪ config_defaults)))).
  apply load_config_fields.
Defined.

(** ** The command line *)

Lemma find_files_store `{Platform} (keywords : list string) (w : world) :
  store (snd (find_files keywords w)) = store w.
Proof.
  unfold find_files, connect.
  destruct w as [[| | |rows] n]; cbn [store connections snd]; try done;
    by destruct (Sql.select_paths _ _ _).
Qed.

Lemma on_database_store {A : Type} (db_path : json) (w : world)
    (run : world -> A * world) :
  store (snd (on_database db_path w run)) = store w \/
  on_database db_path w run = run w.
Proof. destruct db_path; cbn; auto. Qed.

Section Main.
Context `{Platform}.

(** The end of a run leaves a table. *)
Lemma finish_table (existing : gmap string Z) (st : scan_state) (w : world) :
  exists rows, store (snd (finish existing st w)) = Table rows.
Proof.
  unfold finish. destruct (remove_unscanned _ _ _) as [[c deleted]|]; by eexists.
Qed.

(** A call of [index_files] that changes the database has returned, and
    leaves a table. *)
Lemma index_files_any_store (fs : filesystem)
    (dataset_path extensions patterns directories enable : json) (w : world) :
  let r := index_files_any fs dataset_path extensions patterns directories enable w in
  store (snd r) = store w \/
  ((exists o, fst r = Returned o) /\ exists rows, store (snd r) = Table rows).
Proof.
  cbn zeta. unfold index_files_any.
  destruct (items ← in_use (truthy enable) extensions; normalized items)
    as [exclude_extensions|]; [|by left].
  destruct (root_of fs dataset_path); try (by left).
  unfold connect. destruct w as [d n]. destruct d as [| | |rows];
    cbn [store connections]; try (by left).
  - cbn [create_and_select].
    destruct (scan_any _ _ _ _ _ _) as [st|]; [|right; split; by eexists].
    pose proof (finish_table ∅ st {| store := NoTable; connections := S n |}) as Hrows.
    destruct (finish _ _ _) as [o w']. right. split; [by eexists | done].
  - cbn [create_and_select]. destruct (decodable rows); [|by left].
    destruct (scan_any _ _ _ _ _ _) as [st|]; [|by left].
    pose proof (finish_table rows st {| store := Table rows; connections := S n |})
      as Hrows.
    destruct (finish _ _ _) as [o w']. right. split; [by eexists | done].
Qed.

(** Once the configuration is loaded, the program either reads the six
    values of an object and branches on the command, or fails on a value
    that has no items. *)
Lemma main_loaded (prog arg : string) (keywords : list string)
    (file : config_file) (fs : filesystem) (w : world) (config : json) :
  load_config file = inr config ->
  (exists loaded dataset_path db_path extensions patterns directories enable,
     config = JObject loaded /\
     (exists fields, file = Parsed (JObject fields)) /\
     loaded !! "dataset_path" = Some dataset_path /\
     loaded !! "db_path" = Some db_path /\
     loaded !! "exclude_extensions" = Some extensions /\
     loaded !! "exclude_patterns" = Some patterns /\
     loaded !! "exclude_directories" = Some directories /\
     loaded !! "enable_exclusions" = Some enable /\
     main (prog :: arg :: keywords) file fs w =
       dispatch (lower arg) keywords fs dataset_path db_path extensions patterns
                directories enable w) \/
  ((forall loaded, config <> JObject loaded) /\
   main (prog :: arg :: keywords) file fs w =
     {| exit_status := 1; output := [Traceback]; final := w |}).
Proof.
  intros Hload. unfold main. rewrite Hload.
  destruct (load_config_holds_keys file config Hload) as [Hkeys Hfile].
  destruct config as [| | | | |loaded]; try (right; by split).
  left. unfold config_keys in Hkeys. cbn [contains] in Hkeys.
  repeat match goal with
         | Hk : Forall _ (_ :: _) |- _ =>
             apply Forall_cons in Hk as [[= [? ?]%bool_decide_eq_true] Hk]
         end.
  cbn [get_item]. do 7 eexists. split; [done|].
  split; [destruct Hfile as [?|[= ->]]; [done | by eexists]|].
  split_and!; [done..|]. by simplify_option_eq.
Qed.

(** X16. Only an [index] command changes the database. An execution that
    leaves the database other than it found it was an [index] command, in
    any case of letters, on a configuration that is a JSON object; the call
    of [index_files] returned, and the database holds the table. (The call
    may have returned [False], and the exit status be 1: the table is
    created before the scan, and the report is printed after the commit.)
    Searching, a usage error, a refused configuration and an unknown
    command all leave the database as it was. *)
Theorem only_index_changes_database (argv : list string)
    (file : config_file) (fs : filesystem) (w : world) :
  store (final (main argv file fs w)) <> store w ->
  (exists prog arg rest, argv = prog :: arg :: rest /\ lower arg = "index") /\
  (exists fields, file = Parsed (JObject fields)) /\
  (exists o, output (main argv file fs w) = [IndexReport o]) /\
  (exists rows, store (final (main argv file fs w)) = Table rows).
Proof.
  intros Hstore.
  destruct argv as [|prog [|arg keywords]]; try (by destruct Hstore).
  destruct (load_config file) as [err|config] eqn:Hload.
  { unfold main in Hstore. rewrite Hload in Hstore. by destruct Hstore. }
  destruct (main_loaded prog arg keywords file fs w config Hload)
    as [(loaded & dataset_path & db_path & extensions & patterns & directories &
         enable & -> & Hfile & _ & _ & _ & _ & _ & _ & Hrun) | [_ Hrun]];
    rewrite Hrun in Hstore |- *; [|by destruct Hstore].
  unfold dispatch in Hstore |- *.
  destruct (String.eqb (lower arg) "index") eqn:Hindex.
  - apply String.eqb_eq in Hindex.
    destruct (on_database_store db_path w
                (index_files_any fs dataset_path extensions patterns directories enable))
      as [Hsame|Hrun'].
    { destruct (on_database _ _ _) as [r w']. cbn [snd] in Hsame.
      destruct r; by destruct Hstore. }
    rewrite Hrun' in Hstore |- *.
    destruct (index_files_any_store fs dataset_path extensions patterns directories
                enable w) as [Hsame|[[o Ho] Hrows]].
    { destruct (index_files_any _ _ _ _ _ _ _) as [r w']. cbn [snd] in Hsame.
      destruct r; by destruct Hstore. }
    destruct (index_files_any _ _ _ _ _ _ _) as [r w']. cbn [fst snd] in *.
    subst r. cbn [output final]. split_and!; [by do 3 eexists | done | by eexists | done].
  - destruct (String.eqb (lower arg) "search"); [|by destruct Hstore].
    destruct keywords as [|kw kws]; [by destruct Hstore|].
    destruct (on_database_store db_path w (find_files (kw :: kws))) as [Hsame|Hrun'].
    + destruct (on_database _ _ _) as [[[|p ps]|] w']; by destruct Hstore.
    + rewrite Hrun' in Hstore. pose proof (find_files_store (kw :: kws) w) as Hsame.
      destruct (find_files (kw :: kws) w) as [[[|p ps]|] w']; by destruct Hstore.
Qed.

Lemma dispatch_disabled (command : string) (keywords : list string)
    (fs : filesystem)
    (dataset_path db_path extensions patterns directories extensions' patterns'
       directories' enable : json) (w : world) :
  truthy enable = false ->
  dispatch command keywords fs dataset_path db_path extensions patterns directories
           enable w =
  dispatch command keywords fs dataset_path db_path extensions' patterns' directories'
           enable w.
Proof. intros Hoff. unfold dispatch, index_files_any, in_use. by rewrite Hoff. Qed.

(** X18. Unless the configuration enables them, the exclusion rules it holds
    are as good as absent: when [enable_exclusions] is missing from the
    object, or holds a value that counts as false ([false], [null], 0, an
    empty string, list or object), two configurations that differ in the
    three rule lists only give the same execution, for every command line,
    whatever the values under the rule keys are. *)
Theorem rules_ignored_unless_enabled (argv : list string)
    (fields fields' : gmap string json) (fs : filesystem) (w : world) :
  (forall key,
     key <> "exclude_extensions" -> key <> "exclude_patterns" ->
     key <> "exclude_directories" -> fields !! key = fields' !! key) ->
  match fields !! "enable_exclusions" with
  | Some enable => truthy enable = false
  | None => True
  end ->
  main argv (Parsed (JObject fields)) fs w = main argv (Parsed (JObject fields')) fs w.
Proof.
  intros Hsame Hoff.
  destruct argv as [|prog [|arg keywords]]; [done..|].
  pose proof (Hsame "dataset_path") as Hdata.
  pose proof (Hsame "db_path") as Hdb.
  pose proof (Hsame "enable_exclusions") as Henable.
  unfold main. rewrite !load_config_fields, <- Hdata, <- Hdb by done.
  case_bool_decide as Hd; [|done]. case_bool_decide as Hb; [|done].
  cbn [get_item]. rewrite !loaded_lookup, <- Hdata, <- Hdb, <- Henable by done.
  destruct Hd as [dataset_path ->], Hb as [db_path ->].
  assert (forall (m : gmap string json) key,
            is_Some (config_defaults !! key) ->
            is_Some (match m !! key with
                     | Some v => Some v
                     | None => config_defaults !! key
                     end)) as Hitem.
  { intros m key. by destruct (m !! key). }
  destruct (Hitem fields "exclude_extensions") as [e1 ->]; [by eexists|].
  destruct (Hitem fields "exclude_patterns") as [p1 ->]; [by eexists|].
  destruct (Hitem fields "exclude_directories") as [d1 ->]; [by eexists|].
  destruct (Hitem fields' "exclude_extensions") as [e2 ->]; [by eexists|].
  destruct (Hitem fields' "exclude_patterns") as [p2 ->]; [by eexists|].
  destruct (Hitem fields' "exclude_directories") as [d2 ->]; [by eexists|].
  destruct (fields !! "enable_exclusions") as [enable|]; by apply dispatch_disabled.
Qed.
End Main.

Lemma only_index_changes_database_witness :
  (exists prog arg rest,
     ["fileindex.py"; "Index"] = prog :: arg :: rest /\
     lower (Platform := example_platform) arg = "index") /\
  (exists fields, Parsed (JObject example_config) = Parsed (JObject fields)) /\
  (exists o,
     output (main (H := example_platform) ["fileindex.py"; "Index"]
               (Parsed (JObject example_config)) example_fs fresh_world)
     = [IndexReport o]) /\
  (exists rows,
     store (final (main (H := example_platform) ["fileindex.py"; "Index"]
                     (Parsed (JObject example_config)) example_fs fresh_world))
     = Table rows).
Proof.
  apply (only_index_changes_database (H := example_platform) ["fileindex.py"; "Index"]
           (Parsed (JObject example_config)) example_fs fresh_world).
  by vm_compute.
Defined.

(** An [index] command that fails and changes the database: the report
    cannot be printed after the commit; or a pattern that is not a string
    raises during the scan, after the table was created. *)
Example failed_index_changes_database :
  (let e := main (H := mute_platform) ["fileindex.py"; "index"]
              (Parsed (JObject example_config)) example_fs fresh_world in
   exit_status e = 1%nat /\
   store (final e) =
     Table {[ "/data/report.txt" := 1700000000%Z;
              "/data/tmp/cache.tmp" := 1700000500%Z ]}) /\
  (let e := main (H := example_platform) ["fileindex.py"; "index"]
              (Parsed (JObject example_config_untyped)) example_fs fresh_world in
   exit_status e = 1%nat /\ output e = [IndexReport Failed] /\
   final e = {| store := Table ∅; connections := 1 |}).
Proof. by vm_compute. Qed.

Lemma rules_ignored_unless_enabled_witness :
  main (H := example_platform) ["fileindex.py"; "index"]
       (Parsed (JObject example_config_rules)) example_fs fresh_world =
  main (H := example_platform) ["fileindex.py"; "index"]
       (Parsed (JObject example_config)) example_fs fresh_world.
Proof.
  apply (rules_ignored_unless_enabled (H := example_platform)); [|by vm_compute].
  intros key He Hp Hd.
  destruct (decide (key = "dataset_path")) as [->|?]; [by vm_compute|].
  destruct (decide (key = "db_path")) as [->|?]; [by vm_compute|].
  unfold example_config_rules, example_config.
  by rewrite !lookup_insert_ne, !lookup_singleton_ne.
Defined.

(** ** Configurations of the documented types *)

Section Typed.
Context `{Platform}.







End Typed.

